(** * DigitalCardDeckApp: the War card game engine

    A shallow embedding of [game/lib/deck.py], [game/lib/game.py] and
    [game/War.py], and the properties of the turn-based state machine
    they implement.

    Conventions of the embedding:
    - a Python exception is a value of [exn]; a call that can raise
      returns an [outcome];
    - the RFID reader ([rfid_info.get_card]) is the list of the reads
      it will deliver, consumed from the front: each read is the
      identifier of a tag or the exception [reader.read()] raised; a
      read on the empty list blocks for ever and is the outcome
      [Starved];
    - [Game.hands] is a Python dict keyed by player index: a
      [gmap Z Hand];
    - [print], [time.sleep] and the e-paper write ([send_info]) change
      nothing the engine reads back and are left out, as are the fields
      no operation below reads ([Game.name], [Game.log], [War.in_play]);
    - a loop that Python leaves only by its condition takes fuel, and
      [OutOfFuel] is the outcome of a run that used it up. *)

From Stdlib Require Import ZArith String Lia.
From stdpp Require Import base list gmap strings.

Local Open Scope string_scope.
Local Open Scope list_scope.
Local Open Scope Z_scope.

(** ** Exceptions and outcomes *)

Inductive exn : Type :=
| KeyError
| IndexError
| TypeError
| ValueError
| ZeroDivisionError
| GameFailure
| OSError
| KeyboardInterrupt.

(** [except Exception] catches every exception above but
    [KeyboardInterrupt], which derives from [BaseException] only. *)
Definition is_Exception (e : exn) : bool :=
  match e with
  | KeyboardInterrupt => false
  | _ => true
  end.

Inductive outcome (A : Type) : Type :=
| Done (a : A)
| Raise (e : exn)
| Starved
| OutOfFuel.

Arguments Done {A} a.
Arguments Raise {A} e.
Arguments Starved {A}.
Arguments OutOfFuel {A}.

#[global] Instance outcome_ret : MRet outcome := fun A a => Done a.

#[global] Instance outcome_bind : MBind outcome := fun A B k m =>
  match m with
  | Done a => k a
  | Raise e => Raise e
  | Starved => Starved
  | OutOfFuel => OutOfFuel
  end.

(** [d[k]] on a dict, [l[i]] on a list. *)
Definition or_raise {A : Type} (e : exn) (o : option A) : outcome A :=
  match o with
  | Some a => Done a
  | None => Raise e
  end.

(** ** rfid_info.py

    One call of [get_card]: [reader.read()] waits for a tag and returns
    its identifier, or raises; [get_card] catches nothing (its
    [except KeyboardInterrupt] re-raises). *)

Inductive read : Type :=
| Tag (id : Z)
| Fails (e : exn).

(** ** Card values

    [Card.value] comes out of [yaml.safe_load]: an unquoted numeral is
    an [int], anything else a [str]. *)

Inductive pyval : Type :=
| PInt (z : Z)
| PStr (s : string).

(** Python's [a > b]: integers by value, strings lexicographically by
    code point, and a [TypeError] between an [int] and a [str]. *)
Definition py_gt (a b : pyval) : outcome bool :=
  match a, b with
  | PInt x, PInt y => Done (y <? x)%Z
  | PStr s, PStr t => Done (String.ltb t s)
  | _, _ => Raise TypeError
  end.

(** Python's [a == b]: never raises; an [int] never equals a [str]. *)
Definition py_eq (a b : pyval) : bool :=
  match a, b with
  | PInt x, PInt y => (x =? y)%Z
  | PStr s, PStr t => String.eqb s t
  | _, _ => false
  end.

(** ** deck.py *)

(** [Card] defines no [__eq__]: [==] on two cards is object identity.
    [oid] is that identity; [CardDeck] allocates one object per card. *)
Record Card : Type := mkCard {
  oid : nat;
  value : pyval;
  suit : string;
  color : option string
}.

Definition card_is (c d : Card) : bool := Nat.eqb (oid c) (oid d).

(** The dict [yaml.safe_load] returns, one field per key the
    constructor reads; [None] is an absent key.  [suits] is a list of
    dicts [{color: [suit, ...]}], each in insertion order. *)
Record deck_dict : Type := mkDeckDict {
  dd_name : option string;
  dd_size : option Z;
  dd_suits : option (list (list (string * list string)));
  dd_value_list : option (list pyval)
}.

Record CardDeck : Type := mkCardDeck {
  deck_name : string;
  size : Z;
  suits : list (list (string * list string));
  values : list pyval;
  cards : list Card
}.

(** [CardDeck.__create_deck]: four nested loops, one [Card] appended
    per (colour group, colour, suit, value). *)
Definition create_deck_shapes (ss : list (list (string * list string)))
    (vs : list pyval) : list (pyval * string * string) :=
  colors ← ss;
  '(color, suits) ← colors;
  suit ← suits;
  val ← vs;
  [(val, suit, color)].

Definition create_deck (ss : list (list (string * list string)))
    (vs : list pyval) : list Card :=
  imap (fun i '(val, suit, color) => mkCard i val suit (Some color))
       (create_deck_shapes ss vs).

(** [CardDeck.__init__], after the file is loaded. *)
Definition CardDeck_init (d : deck_dict) : outcome CardDeck :=
  name ← or_raise KeyError (dd_name d);
  size ← or_raise KeyError (dd_size d);
  suits ← or_raise KeyError (dd_suits d);
  values ← or_raise KeyError (dd_value_list d);
  Done (mkCardDeck name size suits values (create_deck suits values)).

(** ** game.py: [Hand] *)

(** [Hand.cards] and [Hand.active] are bound to the same list object,
    so one field stands for both.  [turn] starts as [None]. *)
Record Hand : Type := mkHand {
  active : list Card;
  dead : list Card;
  rfids : list Z;
  turn : option bool
}.

Definition Hand_init (cs : list Card) : Hand := mkHand cs [] [] None.

Definition set_active (h : Hand) (a : list Card) : Hand :=
  mkHand a (dead h) (rfids h) (turn h).
Definition set_dead (h : Hand) (d : list Card) : Hand :=
  mkHand (active h) d (rfids h) (turn h).
Definition set_rfids (h : Hand) (r : list Z) : Hand :=
  mkHand (active h) (dead h) r (turn h).
Definition set_turn (h : Hand) (t : option bool) : Hand :=
  mkHand (active h) (dead h) (rfids h) t.

(** [list.remove(x)]: drops the first item equal to [x]; [None] is the
    [ValueError] of a list without one. *)
Fixpoint list_remove (c : Card) (l : list Card) : option (list Card) :=
  match l with
  | [] => None
  | x :: r => if card_is x c then Some r else (x ::.) <$> list_remove c r
  end.

(** [Hand.place]: what the call returns or raises, and the hand it
    leaves behind. *)
Definition place (h : Hand) (card : Card) : outcome Card * Hand :=
  match list_remove card (active h) with
  | Some a => (Done card, set_active h a)
  | None => (Raise ValueError, h)
  end.

Definition collect (h : Hand) (cs : list Card) : Hand :=
  set_dead h (dead h ++ cs).

(** The loop of [Hand.register], inside its [try]:
    [while len(self.rfids) < req_hw] appends one read per turn, so it
    turns at most [req_hw - len(self.rfids)] times; a read that raises
    ends it.  The result is how the loop ended, the hand it leaves
    behind (the identifiers appended so far stay) and the reads left. *)
Fixpoint register_loop (n : nat) (h : Hand) (reads : list read)
    : outcome unit * Hand * list read :=
  match n with
  | O => (Done (), h, reads)
  | S n' =>
      match reads with
      | [] => (Starved, h, reads)
      | Tag id :: rest =>
          register_loop n' (set_rfids h (rfids h ++ [id])) rest
      | Fails e :: rest => (Raise e, h, rest)
      end
  end.

(** [Hand.register]: the loop, and [except Exception] around it: an
    exception of the reader is printed and the call returns normally,
    with the hand short of identifiers; a [KeyboardInterrupt] is not
    caught. *)
Definition register (h : Hand) (req_hw : nat) (reads : list read)
    : outcome (Hand * list read) :=
  match register_loop (req_hw - length (rfids h))%nat h reads with
  | (Done _, h', reads') => Done (h', reads')
  | (Raise e, h', reads') =>
      if is_Exception e then Done (h', reads') else Raise e
  | (Starved, _, _) => Starved
  | (OutOfFuel, _, _) => OutOfFuel
  end.

(** The reads a call of [register] that returns has used, for a hand
    that was [n] identifiers short and now has [ids] more: these [n]
    identifiers, or fewer of them and then the read whose exception
    was swallowed. *)
Definition register_used (n : nat) (ids : list Z) (used : list read) : Prop :=
  (length ids = n /\ used = Tag <$> ids)
  \/ ((length ids < n)%nat
      /\ exists e, is_Exception e = true /\ used = (Tag <$> ids) ++ [Fails e]).

(** ** game.py: [Game] *)

Record Game : Type := mkGame {
  deck : CardDeck;
  graveyard : list Card;
  hands : gmap Z Hand;
  players : nat;
  req_hw : nat
}.

Definition set_hands (g : Game) (hs : gmap Z Hand) : Game :=
  mkGame (deck g) (graveyard g) hs (players g) (req_hw g).
Definition set_deck (g : Game) (d : CardDeck) : Game :=
  mkGame d (graveyard g) (hands g) (players g) (req_hw g).

(** [range(n)] *)
Definition range (n : nat) : list Z := Z.of_nat <$> seq 0 n.

Definition Game_init (d : deck_dict) (req_hw players : nat) : outcome Game :=
  dk ← CardDeck_init d;
  Done (mkGame dk [] ∅ players req_hw).

Fixpoint get_player_loop (hs : gmap Z Hand) (player_hw : Z) (ps : list Z)
    : outcome Z :=
  match ps with
  | [] => Raise GameFailure
  | player :: ps' =>
      h ← or_raise KeyError (hs !! player);
      if bool_decide (player_hw ∈ rfids h) then Done player
      else get_player_loop hs player_hw ps'
  end.

Definition get_player (g : Game) (player_hw : Z) : outcome Z :=
  get_player_loop (hands g) player_hw (range (players g)).

Definition is_turn (g : Game) (player_hw : Z) : outcome bool :=
  player ← get_player g player_hw;
  h ← or_raise KeyError (hands g !! player);
  Done (bool_decide (turn h = Some true)).

Definition discard (g : Game) (cs : list Card) : Game :=
  mkGame (deck g) (graveyard g ++ cs) (hands g) (players g) (req_hw g).

(** ** War.py *)

(** [War.__init__]: [super().__init__("War", 2)] binds [req_hw = 2] and
    leaves [players] at its default of 2. *)
Definition War_init (d : deck_dict) : outcome Game := Game_init d 2 2.

(** Python's [not x] on a turn flag: [None] and [False] are falsy. *)
Definition py_not (t : option bool) : bool :=
  match t with
  | Some true => false
  | _ => true
  end.

Fixpoint switch_turns_loop (hs : gmap Z Hand) (ps : list Z)
    : outcome (gmap Z Hand) :=
  match ps with
  | [] => Done hs
  | player :: ps' =>
      h ← or_raise KeyError (hs !! player);
      switch_turns_loop (<[player := set_turn h (Some (py_not (turn h)))]> hs) ps'
  end.

Definition switch_turns (g : Game) : outcome Game :=
  hs ← switch_turns_loop (hands g) (range (players g));
  Done (set_hands g hs).

(** One play of the round: the dict [{player_id: card}] that
    [get_player_info] returns, in insertion order. *)
Definition play : Type := list (Z * Card).

Fixpoint dict_get (k : Z) (d : play) : option Card :=
  match d with
  | [] => None
  | (k', c) :: d' => if (k' =? k)%Z then Some c else dict_get k d'
  end.

Definition dict_keys (d : play) : list Z := fst <$> d.

(** [current_round[i][k]] *)
Definition round_card (current_round : list play) (i : nat) (k : Z)
    : outcome Card :=
  d ← or_raise IndexError (current_round !! i);
  or_raise KeyError (dict_get k d).

(** [translate_A_K]: ['A'] compares as ['Z'] and ['K'] as ['X']. *)
Definition translate_A_K (v : pyval) : pyval :=
  match v with
  | PStr "A" => PStr "Z"
  | PStr "K" => PStr "X"
  | _ => v
  end.

(** [winner[-1]] for [winner = list(d.keys())] *)
Definition last_key (d : play) : outcome Z :=
  or_raise IndexError (last (dict_keys d)).

Definition check_winner (current_round : list play) : outcome Z :=
  c0 ← round_card current_round 0 0;
  let card_value1 := translate_A_K (value c0) in
  c1 ← round_card current_round 1 1;
  let card_value2 := translate_A_K (value c1) in
  gt12 ← py_gt card_value1 card_value2;
  if (gt12 : bool) then
    d0 ← or_raise IndexError (current_round !! 0%nat);
    last_key d0
  else
    gt21 ← py_gt card_value2 card_value1;
    if (gt21 : bool) then
      d1 ← or_raise IndexError (current_round !! 1%nat);
      last_key d1
    else if py_eq card_value1 card_value2 then Done (-1)
    else Raise TypeError.

(** [self.hands[p].dead.append(c)] and [self.hands[p].active.append(c)] *)
Definition dead_append (hs : gmap Z Hand) (p : Z) (c : Card)
    : outcome (gmap Z Hand) :=
  h ← or_raise KeyError (hs !! p);
  Done (<[p := set_dead h (dead h ++ [c])]> hs).

Definition active_append (hs : gmap Z Hand) (p : Z) (c : Card)
    : outcome (gmap Z Hand) :=
  h ← or_raise KeyError (hs !! p);
  Done (<[p := set_active h (active h ++ [c])]> hs).

Definition distribute (g : Game) (winner : Z) (current_round : list play)
    : outcome Game :=
  hs1 ← (if bool_decide (winner ≠ -1) then
           _ ← or_raise KeyError (hands g !! winner);
           c0 ← round_card current_round 0 0;
           hs ← dead_append (hands g) winner c0;
           _ ← or_raise KeyError (hs !! winner);
           c1 ← round_card current_round 1 1;
           dead_append hs winner c1
         else Done (hands g));
  _ ← or_raise KeyError (hs1 !! 0);
  c0 ← round_card current_round 0 0;
  hs2 ← active_append hs1 0 c0;
  _ ← or_raise KeyError (hs2 !! 1);
  c1 ← round_card current_round 1 1;
  hs3 ← active_append hs2 1 c1;
  Done (set_hands g hs3).

Definition set_cards (d : CardDeck) (cs : list Card) : CardDeck :=
  mkCardDeck (deck_name d) (size d) (suits d) (values d) cs.

(** The loop of [create_hands] over [range(self.players)]. *)
Fixpoint deal_loop (deck_halves : list (list Card)) (req : nat)
    (hs : gmap Z Hand) (ps : list Z) (reads : list read)
    : outcome (gmap Z Hand * list read) :=
  match ps with
  | [] => Done (hs, reads)
  | player :: ps' =>
      half ← or_raise IndexError (deck_halves !! Z.to_nat player);
      '(h, reads') ← register (Hand_init half) req reads;
      _ ← or_raise IndexError (last (rfids h));
      deal_loop deck_halves req (<[player := h]> hs) ps' reads'
  end.

(** [create_hands].  [shuffled] is the order [random.shuffle] leaves
    the deck in. *)
Definition create_hands (shuffled : list Card) (g : Game)
    (reads : list read) : outcome (Game * list read) :=
  let g1 := set_deck g (set_cards (deck g) shuffled) in
  if (players g =? 0)%nat then Raise ZeroDivisionError
  else
    let deck_half := (length shuffled / players g)%nat in
    let deck_halves := [take deck_half shuffled; drop deck_half shuffled] in
    '(hs, reads') ← deal_loop deck_halves (req_hw g / players g)%nat
                       (hands g) (range (players g)) reads;
    h0 ← or_raise KeyError (hs !! 0);
    Done (set_hands g1 (<[0 := set_turn h0 (Some true)]> hs), reads').

(** The [while True] of [get_player_info]: read identifiers until one
    belongs to the player whose turn it is.  [get_hw] is [get_card];
    nothing here catches the exception of a read that fails. *)
Fixpoint wait_turn (g : Game) (reads : list read)
    : outcome (Z * list read) :=
  match reads with
  | [] => Starved
  | Fails e :: _ => Raise e
  | Tag player_hw :: rest =>
      t ← is_turn g player_hw;
      if (t : bool) then Done (player_hw, rest) else wait_turn g rest
  end.

Definition get_player_info (g : Game) (reads : list read)
    : outcome (play * Game * list read) :=
  '(player_hw, reads') ← wait_turn g reads;
  player_id ← get_player g player_hw;
  h ← or_raise KeyError (hands g !! player_id);
  match active h with
  | [] => Raise IndexError
  | card :: rest =>
      let g1 := set_hands g (<[player_id := set_active h rest]> (hands g)) in
      g2 ← switch_turns g1;
      Done ([(player_id, card)], g2, reads')
  end.

(** [for player in range(self.players): curr_round.append(...)] *)
Fixpoint collect_plays (ps : list Z) (curr_round : list play) (g : Game)
    (reads : list read) : outcome (list play * Game * list read) :=
  match ps with
  | [] => Done (curr_round, g, reads)
  | _ :: ps' =>
      '(current, g1, reads1) ← get_player_info g reads;
      collect_plays ps' (curr_round ++ [current]) g1 reads1
  end.

(** The body of the loop of [start]; the winner it prints is returned
    along with the new state. *)
Definition play_round (g : Game) (reads : list read)
    : outcome (Z * Game * list read) :=
  '(curr_round, g1, reads1) ← collect_plays (range (players g)) [] g reads;
  winner ← check_winner curr_round;
  g2 ← distribute g1 winner curr_round;
  Done (winner, g2, reads1).

(** [len(self.hands[0].dead) < 52 and len(self.hands[1].dead) < 52] *)
Definition keep_playing (g : Game) : outcome bool :=
  h0 ← or_raise KeyError (hands g !! 0);
  if (length (dead h0) <? 52)%nat then
    h1 ← or_raise KeyError (hands g !! 1);
    Done (length (dead h1) <? 52)%nat
  else Done false.

Fixpoint start_loop (fuel : nat) (g : Game) (reads : list read)
    : outcome (Game * list read) :=
  match fuel with
  | O => OutOfFuel
  | S fuel' =>
      go ← keep_playing g;
      if (go : bool) then
        '(_, g1, reads1) ← play_round g reads;
        start_loop fuel' g1 reads1
      else Done (g, reads)
  end.

(** The closing loop of [start]: the first player whose pile holds 52
    cards or more is announced. *)
Fixpoint announce (hs : gmap Z Hand) (ps : list Z) : outcome (option Z) :=
  match ps with
  | [] => Done None
  | player :: ps' =>
      h ← or_raise KeyError (hs !! player);
      if (52 <=? length (dead h))%nat then Done (Some player)
      else announce hs ps'
  end.

(** [start], with the player it announces as its result. *)
Definition start (fuel : nat) (g : Game) (reads : list read)
    : outcome (option Z * Game * list read) :=
  '(g1, reads1) ← start_loop fuel g reads;
  w ← announce (hands g1) (range (players g1));
  Done (w, g1, reads1).

(** ** The standard deck *)

Inductive rank : Type :=
| R2 | R3 | R4 | R5 | R6 | R7 | R8 | R9 | R10 | RJ | RQ | RK | RA.

(** The position of a rank in 2 < 3 < ... < 10 < J < Q < K < A. *)
Definition rank_pos (r : rank) : nat :=
  match r with
  | R2 => 2 | R3 => 3 | R4 => 4 | R5 => 5 | R6 => 6 | R7 => 7 | R8 => 8
  | R9 => 9 | R10 => 10 | RJ => 11 | RQ => 12 | RK => 13 | RA => 14
  end%nat.

(** The text of a rank, as the docstring of [Card] has it (['A'],
    ['K'], ['Q'], ['2'], ['3']). *)
Definition rank_name (r : rank) : string :=
  match r with
  | R2 => "2" | R3 => "3" | R4 => "4" | R5 => "5" | R6 => "6" | R7 => "7"
  | R8 => "8" | R9 => "9" | R10 => "10" | RJ => "J" | RQ => "Q" | RK => "K"
  | RA => "A"
  end.

Definition all_ranks : list rank :=
  [R2; R3; R4; R5; R6; R7; R8; R9; R10; RJ; RQ; RK; RA].

(** What an unquoted YAML list of the ranks loads as: numerals as
    [int], court cards and the ace as [str]. *)
Definition rank_yaml (r : rank) : pyval :=
  match r with
  | RJ | RQ | RK | RA => PStr (rank_name r)
  | _ => PInt (Z.of_nat (rank_pos r))
  end.

(** The round in which player 0 plays [c] and player 1 plays [d]. *)
Definition round_cards (c d : Card) : list play := [[(0, c)]; [(1, d)]].

(** The same, for two cards of value [a] and [b]. *)
Definition round_of (a b : pyval) : list play :=
  round_cards (mkCard 0 a "Hearts" (Some "Red"))
              (mkCard 1 b "Spades" (Some "Black")).

(** The result the rank order asks for: the holder of the higher rank,
    [-1] on equal ranks. *)
Definition rank_winner (a b : rank) : Z :=
  if (rank_pos b <? rank_pos a)%nat then 0
  else if (rank_pos a <? rank_pos b)%nat then 1
  else -1.

(** A ten against a numeral from 2 to 9. *)
Definition ten_low (a b : rank) : bool :=
  match a, b with
  | R10, (R2 | R3 | R4 | R5 | R6 | R7 | R8 | R9) => true
  | _, _ => false
  end.

(** The result of a round with the two plays exchanged. *)
Definition swap_winner (o : outcome Z) : outcome Z :=
  match o with
  | Done 0 => Done 1
  | Done 1 => Done 0
  | _ => o
  end.

(** The number of suit names of a deck description, over all its
    colour groups. *)
Definition suit_count (ss : list (list (string * list string))) : nat :=
  sum_list ((fun colors => sum_list ((fun cs => length cs.2) <$> colors)) <$> ss).

(** Modelled from the spec: the deck description the engine loads,
    [game/lib/decks/standard.yaml], is not among the sources.  This is
    the standard deck of 52 as the spec describes a description: a
    size, colour groups of suits, and the list of ranks. *)
Definition standard_dict : deck_dict :=
  mkDeckDict (Some "standard") (Some 52)
    (Some [[("Red", ["Hearts"; "Diamonds"])]; [("Black", ["Spades"; "Clubs"])]])
    (Some (PStr ∘ rank_name <$> all_ranks)).

(** A description that declares 52 cards and lists one suit of two
    ranks. *)
Definition short_dict : deck_dict :=
  mkDeckDict (Some "short") (Some 52)
    (Some [[("Red", ["Hearts"])]])
    (Some [PStr "K"; PStr "5"]).

(** Three cards and a hand that holds the first two. *)
Definition card_K : Card := mkCard 0 (PStr "K") "Hearts" (Some "Red").
Definition card_5 : Card := mkCard 1 (PStr "5") "Spades" (Some "Black").
Definition card_9 : Card := mkCard 2 (PStr "9") "Clubs" (Some "Black").
Definition hand_K5 : Hand := mkHand [card_K; card_5] [] [11] (Some true).

(** A two-player game in which the identifier 11 is bound to both
    hands and 22 to the second only. *)
Definition game_both : Game :=
  mkGame (mkCardDeck "standard" 52 [] [] []) []
    (<[0 := mkHand [card_K] [] [11] (Some true)]>
       (<[1 := mkHand [card_5] [] [11; 22] None]> ∅))
    2 2.

Definition card_2 : Card := mkCard 3 (PStr "2") "Diamonds" (Some "Red").

(** A round under way: player 0 held the king and the nine, player 1
    the five and the two; the king and the five have been played. *)
Definition game_mid : Game :=
  mkGame (mkCardDeck "standard" 52 [] [] []) []
    (<[0 := mkHand [card_9] [] [11] (Some true)]>
       (<[1 := mkHand [card_2] [] [22] (Some false)]> ∅))
    2 2.

(** ** Notions used to state the properties *)

(** A hand whose turn flag has gone through [switch_turns] once. *)
Definition flip_turn (h : Hand) : Hand :=
  set_turn h (Some (py_not (turn h))).

(** The flag [is_turn] tests: [turn is True]. *)
Definition has_turn (h : Hand) : bool := bool_decide (turn h = Some true).

(** Exactly one of the hands of players 0 and 1 has its turn. *)
Definition one_turn (g : Game) : bool :=
  match hands g !! 0, hands g !! 1 with
  | Some h0, Some h1 => xorb (has_turn h0) (has_turn h1)
  | _, _ => false
  end.

(** A queue after its front card has gone to its back. *)
Definition rotate1 (l : list Card) : list Card :=
  match l with
  | [] => []
  | c :: rest => rest ++ [c]
  end.

(** [n] turns of the body of the loop of [start]. *)
Fixpoint play_rounds (n : nat) (g : Game) (reads : list read)
    : outcome (Game * list read) :=
  match n with
  | O => Done (g, reads)
  | S n' =>
      '(_, g1, reads1) ← play_round g reads;
      play_rounds n' g1 reads1
  end.

(** The states of a game of War from the deal on: the deal, then any
    number of plays, distributions and turn switches. *)
Inductive reachable (g0 : Game) : Game -> Prop :=
| reach_deal shuffled reads g reads' :
    create_hands shuffled g0 reads = Done (g, reads') ->
    reachable g0 g
| reach_play g reads current g' reads' :
    reachable g0 g ->
    get_player_info g reads = Done (current, g', reads') ->
    reachable g0 g'
| reach_distribute g winner current_round g' :
    reachable g0 g ->
    distribute g winner current_round = Done g' ->
    reachable g0 g'
| reach_switch g g' :
    reachable g0 g ->
    switch_turns g = Done g' ->
    reachable g0 g'.

(** The deck that [CardDeck] builds from [standard_dict], and the War
    game that starts from it. *)
Definition standard_deck : CardDeck :=
  mkCardDeck "standard" 52
    [[("Red", ["Hearts"; "Diamonds"])]; [("Black", ["Spades"; "Clubs"])]]
    (PStr ∘ rank_name <$> all_ranks)
    (create_deck
       [[("Red", ["Hearts"; "Diamonds"])]; [("Black", ["Spades"; "Clubs"])]]
       (PStr ∘ rank_name <$> all_ranks)).

Definition war_new : Game := mkGame standard_deck [] ∅ 2 2.

(** The game [g] in a completed step, [dflt] otherwise. *)
Definition game_after {A : Type} (dflt : Game)
    (o : outcome (A * Game * list read)) : Game :=
  match o with
  | Done (_, g, _) => g
  | _ => dflt
  end.

(** [war_new] dealt with the deck left in the order it was built in,
    the players bound to the identifiers 11 and 22. *)
Definition war_dealt : Game :=
  match create_hands (cards standard_deck) war_new [Tag 11; Tag 22] with
  | Done (g, _) => g
  | _ => war_new
  end.

(** The standard deck with its second half turned over: the first
    round sets the two of hearts against the ace of clubs. *)
Definition mixed_deck : list Card :=
  take 26 (cards standard_deck) ++ reverse (drop 26 (cards standard_deck)).

(** [war_new] dealt from [mixed_deck]. *)
Definition war_mixed : Game :=
  match create_hands mixed_deck war_new [Tag 11; Tag 22] with
  | Done (g, _) => g
  | _ => war_new
  end.

(** [war_mixed] after its first round, and [war_dealt] after two. *)
Definition war_mixed_1 : Game :=
  game_after war_new (play_round war_mixed [Tag 11; Tag 22]).

Definition war_dealt_2 : Game :=
  match play_rounds 2 war_dealt [Tag 11; Tag 22; Tag 11; Tag 22] with
  | Done (g, _) => g
  | _ => war_new
  end.

(** [len(active) + len(dead)] of the hand of player [p]. *)
Definition hand_total (g : Game) (p : Z) : option nat :=
  (fun h => (length (active h) + length (dead h))%nat) <$> hands g !! p.

(** ** Notions used to state termination *)

(** The reads of [n] rounds in which player 0 presents [r0] and then
    player 1 presents [r1]. *)
Definition alternating (n : nat) (r0 r1 : Z) : list read :=
  concat (replicate n [Tag r0; Tag r1]).

(** The round of [c] against [d] is a tie. *)
Definition ties (c d : Card) : bool :=
  match check_winner (round_cards c d) with
  | Done (-1) => true
  | _ => false
  end.

(** The round of [c] against [d] has a result. *)
Definition resolves (c d : Card) : bool :=
  match check_winner (round_cards c d) with
  | Done _ => true
  | _ => false
  end.

(** The pairs a deal sets against each other: the [i]-th card of the
    first half of the deck and the [i]-th of the second. *)
Definition aligned (shuffled : list Card) : list (Card * Card) :=
  zip (take (length shuffled / 2) shuffled) (drop (length shuffled / 2) shuffled).

(** A game of War between two rounds: the queues of the two hands hold
    the pairs [q], front first, the piles hold [n0] and [n1] cards, it
    is the turn of player 0, and [r0] and [r1] identify the players. *)
Definition seated (r0 r1 : Z) (g : Game) (q : list (Card * Card))
    (n0 n1 : nat) : Prop :=
  players g = 2%nat
  /\ exists h0 h1,
       hands g !! 0 = Some h0 /\ hands g !! 1 = Some h1
       /\ active h0 = q.*1 /\ active h1 = q.*2
       /\ length (dead h0) = n0 /\ length (dead h1) = n1
       /\ has_turn h0 = true /\ has_turn h1 = false
       /\ r0 ∈ rfids h0 /\ (r1 ∉ rfids h0) /\ r1 ∈ rfids h1.

(** A value that is a text. *)
Definition is_str (v : pyval) : bool :=
  match v with
  | PStr _ => true
  | PInt _ => false
  end.

(** A game of War in which every round to come is a tie: the queues
    hold the pairs [q], each of them a tie, and both piles are empty. *)
Definition all_tied (g : Game) (q : list (Card * Card)) : Prop :=
  players g = 2%nat
  /\ Forall (fun cd => ties cd.1 cd.2 = true) q
  /\ exists h0 h1,
       hands g !! 0 = Some h0 /\ hands g !! 1 = Some h1
       /\ active h0 = q.*1 /\ active h1 = q.*2
       /\ dead h0 = [] /\ dead h1 = [].


(** ** game.py: hardware readiness *)

(** The counting loop of [is_hw_registered] over [self.hands.values()]:
    a hand counts when its [rfids] list is not empty. *)
Fixpoint count_registered (hs : list Hand) (count : nat) : nat :=
  match hs with
  | [] => count
  | hand :: hs' =>
      count_registered hs'
        (match rfids hand with [] => count | _ :: _ => S count end)
  end.

(** [Game.is_hw_registered]: [False] on an empty [hands] dict, otherwise
    whether the count of registered hands equals [len(self.hands)]. *)
Definition is_hw_registered (g : Game) : bool :=
  if decide (hands g = ∅) then false
  else bool_decide
         (count_registered (map_to_list (hands g)).*2 0 = base.size (hands g)).

(** ** send_info.py *)

(** [_string_to_bytes]: [[ord(c) for c in value]], for a text whose
    characters are single bytes. *)
Definition string_to_bytes (value : string) : list Z :=
  (fun c => Z.of_nat (Ascii.nat_of_ascii c)) <$> String.list_ascii_of_string value.

(** A two-player game in which both hands are bound to the identifier
    11 alone, and it is the turn of player 1. *)
Definition game_same : Game :=
  mkGame (mkCardDeck "standard" 52 [] [] []) []
    (<[0 := mkHand [card_K] [] [11] (Some false)]>
       (<[1 := mkHand [card_5] [] [11] (Some true)]> ∅))
    2 2.

(** [war_new] dealt with the identifier 11 read for both players. *)
Definition war_same : Game :=
  match create_hands (cards standard_deck) war_new [Tag 11; Tag 11] with
  | Done (g, _) => g
  | _ => war_new
  end.

(** A two-player game that asks for two identifiers per player, and its
    deal while the second read fails: player 0 is left with the one
    identifier read before. *)
Definition game_two_each : Game := mkGame standard_deck [] ∅ 2 4.

Definition dealt_short : Game :=
  match create_hands (cards standard_deck) game_two_each
          [Tag 11; Fails OSError; Tag 22; Tag 33] with
  | Done (g, _) => g
  | _ => game_two_each
  end.

(** A hand that has only gained cards: the same turn flag and
    identifiers, and both lists extended at their end. *)
Definition grows (h h' : Hand) : Prop :=
  turn h' = turn h /\ rfids h' = rfids h
  /\ active h `prefix_of` active h' /\ dead h `prefix_of` dead h'.

(** The hands of [hs'] are those of [hs], each one grown. *)
Definition hands_grow (hs hs' : gmap Z Hand) : Prop :=
  forall p : Z, option_Forall2 grows (hs !! p) (hs' !! p).

(** [war_mixed] played to its end, the players presenting 11 and 22 in
    turn. *)
Definition war_mixed_won : Game :=
  game_after war_new (start 100 war_mixed (alternating 200 11 22)).

(** The suit names of a deck description, in the order the deck is
    built in. *)
Definition suit_names (ss : list (list (string * list string))) : list string :=
  colors ← ss; '(_, suits) ← colors; suits.

(** A ten loaded as an integer, and a game in which player 0 holds it
    against the king of player 1. *)
Definition card_10i : Card := mkCard 4 (PInt 10) "Hearts" (Some "Red").

Definition game_yaml : Game :=
  mkGame (mkCardDeck "standard" 52 [] [] []) []
    (<[0 := mkHand [card_10i] [] [11] (Some true)]>
       (<[1 := mkHand [card_K] [] [22] (Some false)]> ∅))
    2 2.
(** ** Round resolution *)

(** Played as their texts, every pair of ranks is decided by the rank
    order except a ten against a numeral from 2 to 9: there the lower
    card wins. *)
Lemma check_winner_rank_names (a b : rank) :
  check_winner (round_of (PStr (rank_name a)) (PStr (rank_name b)))
  = Done (if ten_low a b || ten_low b a then rank_winner b a
          else rank_winner a b).
Proof. destruct a, b; reflexivity. Qed.

(** C1, at the pair on which the rank order is lost: player 0 plays a
    ten and player 1 a nine, both as texts; the ten is the higher rank,
    and [check_winner] returns player 1. *)
Theorem check_winner_ten_nine :
  check_winner (round_of (PStr (rank_name R10)) (PStr (rank_name R9))) = Done 1
  /\ rank_winner R10 R9 = 0.
Proof. split; reflexivity. Qed.

(** With the numerals loaded as integers, a numeral against a court
    card is a [TypeError]. *)
Lemma check_winner_ten_jack_yaml :
  check_winner (round_of (rank_yaml R10) (rank_yaml RJ)) = Raise TypeError.
Proof. reflexivity. Qed.

(** However the deck description spells its numerals, quoted (texts)
    or not (integers), rank by rank, some pair of ranks is not decided
    by the rank order. *)
Lemma check_winner_misses_rank_order (load : rank -> pyval) :
  (forall r, load r = PStr (rank_name r) \/ load r = rank_yaml r) ->
  exists a b,
    check_winner (round_of (load a) (load b)) <> Done (rank_winner a b).
Proof.
  intros Hload.
  destruct (Hload R10) as [E10|E10].
  - destruct (Hload R9) as [E9|E9]; exists R10, R9; rewrite E10, E9; done.
  - destruct (Hload RJ) as [EJ|EJ]; exists R10, RJ; rewrite E10, EJ; done.
Qed.

Lemma ltb_antisym (s t : string) :
  String.ltb s t = true -> String.ltb t s = false.
Proof.
  unfold String.ltb. rewrite (String.compare_antisym t s).
  destruct (String.compare s t); simpl; congruence.
Qed.

Lemma ltb_total (s t : string) :
  String.ltb s t = false -> String.ltb t s = false -> s = t.
Proof.
  unfold String.ltb. rewrite (String.compare_antisym t s).
  destruct (String.compare s t) eqn:E; simpl; try congruence.
  intros _ _. by apply String.compare_eq_iff.
Qed.

(** C6: resolving the round with the two cards exchanged gives a tie
    where there was a tie, and the other player where there was a
    winner. *)
Theorem check_winner_swap (c d : Card) :
  check_winner (round_cards d c) = swap_winner (check_winner (round_cards c d)).
Proof.
  unfold check_winner, round_cards; cbn.
  destruct (translate_A_K (value c)) as [x|s],
           (translate_A_K (value d)) as [y|t]; cbn;
    try reflexivity.
  - destruct (Z.ltb_spec x y), (Z.ltb_spec y x); cbn; try reflexivity; try lia.
    destruct (Z.eqb_spec x y), (Z.eqb_spec y x); cbn; try reflexivity; lia.
  - destruct (String.ltb s t) eqn:E1, (String.ltb t s) eqn:E2; cbn;
      try reflexivity.
    + apply ltb_antisym in E1. congruence.
    + pose proof (ltb_total _ _ E1 E2) as ->.
      by rewrite String.eqb_refl.
Qed.

(** ** The deck factory *)

Lemma length_bind_const {A B : Type} (f : A -> list B) (n : nat) (l : list A) :
  (forall x, length (f x) = n) -> length (l ≫= f) = (length l * n)%nat.
Proof.
  intros Hf. induction l as [|x l IH]; [done|].
  rewrite bind_cons, length_app, Hf, IH. simpl. lia.
Qed.

Lemma length_create_deck ss vs :
  length (create_deck ss vs) = (suit_count ss * length vs)%nat.
Proof.
  unfold create_deck, create_deck_shapes, suit_count.
  rewrite length_imap.
  induction ss as [|colors ss IH]; [done|].
  rewrite bind_cons, length_app, IH, fmap_cons. simpl sum_list.
  rewrite Nat.mul_add_distr_r. f_equal.
  induction colors as [|[color suits] colors IHc]; [done|].
  rewrite bind_cons, length_app, IHc, fmap_cons. simpl sum_list.
  rewrite Nat.mul_add_distr_r. f_equal.
  rewrite (length_bind_const _ (length vs)); [done|].
  intros suit. rewrite (length_bind_const _ 1%nat); [lia|done].
Qed.

(** C7, as the code has it: a description with its four fields gives a
    deck of one card per suit name and rank, whatever size it declares;
    the declared size is stored, never compared; a description without
    one of the fields raises [KeyError]. *)
Theorem CardDeck_init_cards (d : deck_dict) :
  match dd_name d, dd_size d, dd_suits d, dd_value_list d with
  | Some n, Some sz, Some ss, Some vs =>
      exists dk, CardDeck_init d = Done dk
        /\ size dk = sz
        /\ cards dk = create_deck ss vs
        /\ length (cards dk) = (suit_count ss * length vs)%nat
  | _, _, _, _ => CardDeck_init d = Raise KeyError
  end.
Proof.
  destruct d as [[n|] [sz|] [ss|] [vs|]]; cbn; try reflexivity.
  eexists; repeat split. cbn. apply length_create_deck.
Qed.

(** C7 fails where the composition of a description disagrees with its
    size: [short_dict] declares 52 cards, and the factory builds a deck
    of 2 without raising. *)
Lemma CardDeck_init_short_dict :
  exists dk, CardDeck_init short_dict = Done dk
    /\ size dk = 52 /\ length (cards dk) = 2%nat
    /\ Z.of_nat (length (cards dk)) <> size dk.
Proof. eexists; repeat split. cbn. lia. Qed.

(** The standard description gives 52 cards. *)
Lemma standard_deck_52 :
  exists dk, CardDeck_init standard_dict = Done dk /\ length (cards dk) = 52%nat.
Proof. eexists; split; reflexivity. Qed.

(** ** Placing a card *)

Lemma list_remove_absent (c : Card) (l : list Card) :
  (forall x, x ∈ l -> oid x <> oid c) -> list_remove c l = None.
Proof.
  induction l as [|x l IH]; intros H; [done|]. simpl.
  unfold card_is. destruct (Nat.eqb_spec (oid x) (oid c)) as [E|_].
  - destruct (H x); [left|done].
  - rewrite IH; [done|]. intros y Hy. apply H. by right.
Qed.

Lemma list_remove_present (c : Card) (l : list Card) :
  (exists x, x ∈ l /\ oid x = oid c) ->
  exists l1 x l2, l = l1 ++ x :: l2 /\ oid x = oid c
    /\ (forall y, y ∈ l1 -> oid y <> oid c)
    /\ list_remove c l = Some (l1 ++ l2).
Proof.
  induction l as [|x l IH]; intros (y & Hy & E).
  - by apply elem_of_nil in Hy.
  - destruct (Nat.eqb_spec (oid x) (oid c)) as [Ex|Nx].
    + exists [], x, l. repeat split; [done| |].
      * intros z Hz. by apply elem_of_nil in Hz.
      * simpl. unfold card_is. by rewrite Ex, Nat.eqb_refl.
    + apply elem_of_cons in Hy as [->|Hy]; [done|].
      destruct IH as (l1 & z & l2 & -> & Ez & Hl1 & Hr); [by exists y|].
      exists (x :: l1), z, l2. repeat split; [done| |].
      * intros w [->|Hw]%elem_of_cons; [done|by apply Hl1].
      * simpl. unfold card_is.
        destruct (Nat.eqb_spec (oid x) (oid c)); [done|]. by rewrite Hr.
Qed.

(** C8: [place(card)] on a hand that holds [card] in [active] takes
    out that card, the first item of [active] that is the object
    [card], returns it and leaves [dead], [rfids] and [turn] as they
    were; on a hand that does not hold it, the call raises
    ([ValueError], from [list.remove]) and the hand is unchanged. *)
Theorem place_spec (h : Hand) (card : Card) :
  ((exists x, x ∈ active h /\ oid x = oid card) ->
     exists l1 x l2, active h = l1 ++ x :: l2 /\ oid x = oid card
       /\ (forall y, y ∈ l1 -> oid y <> oid card)
       /\ place h card
          = (Done card, mkHand (l1 ++ l2) (dead h) (rfids h) (turn h)))
  /\ ((forall x, x ∈ active h -> oid x <> oid card) ->
        place h card = (Raise ValueError, h)).
Proof.
  split.
  - intros H. destruct (list_remove_present card (active h) H)
      as (l1 & x & l2 & Ha & Ex & Hl1 & Hr).
    exists l1, x, l2. repeat split; [done..|].
    unfold place. by rewrite Hr.
  - intros H. unfold place. by rewrite (list_remove_absent _ _ H).
Qed.

Lemma place_spec_witness :
  (exists l1 x l2,
     active hand_K5 = l1 ++ x :: l2 /\ oid x = oid card_5
     /\ (forall y, y ∈ l1 -> oid y <> oid card_5)
     /\ place hand_K5 card_5
        = (Done card_5,
           mkHand (l1 ++ l2) (dead hand_K5) (rfids hand_K5) (turn hand_K5)))
  /\ place hand_K5 card_9 = (Raise ValueError, hand_K5).
Proof.
  split.
  - apply (proj1 (place_spec hand_K5 card_5)).
    exists card_5. split; [|reflexivity].
    apply list_elem_of_In. simpl. auto.
  - apply (proj2 (place_spec hand_K5 card_9)).
    intros x Hx. apply list_elem_of_In in Hx. simpl in Hx.
    destruct Hx as [<-|[<-|[]]]; simpl; lia.
Defined.

(** ** Identity resolution *)

Lemma get_player_loop_seq (hs : gmap Z Hand) (hw : Z) (n i : nat) :
  (forall q, (i <= q < i + n)%nat -> is_Some (hs !! Z.of_nat q)) ->
  match get_player_loop hs hw (Z.of_nat <$> seq i n) with
  | Done p =>
      exists k, p = Z.of_nat k /\ (i <= k < i + n)%nat
        /\ (exists h, hs !! p = Some h /\ hw ∈ rfids h)
        /\ forall q h, (i <= q < k)%nat -> hs !! Z.of_nat q = Some h ->
             hw ∉ rfids h
  | Raise GameFailure =>
      forall q h, (i <= q < i + n)%nat -> hs !! Z.of_nat q = Some h ->
        hw ∉ rfids h
  | _ => False
  end.
Proof.
  revert i. induction n as [|n IH]; intros i Hdom; simpl.
  - intros q h Hq. lia.
  - destruct (Hdom i) as [h Hh]; [lia|]. rewrite Hh. cbn.
    case_bool_decide as Hin.
    + exists i. repeat split; [lia..| |].
      * by exists h.
      * intros q h' Hq. lia.
    + assert (Hdom' : forall q, (S i <= q < S i + n)%nat ->
                is_Some (hs !! Z.of_nat q)).
      { intros q Hq. apply Hdom. lia. }
      specialize (IH (S i) Hdom').
      change (list_fmap nat Z Z.of_nat (seq (S i) n))
        with (Z.of_nat <$> seq (S i) n).
      destruct (get_player_loop hs hw (Z.of_nat <$> seq (S i) n))
        as [p|[]| |]; try done.
      * destruct IH as (k & -> & Hk & Hk' & Hlow).
        exists k. repeat split; [lia..|done|].
        intros q h' Hq Hq'. destruct (decide (q = i)) as [->|Ne].
        -- congruence.
        -- apply (Hlow q h'); [lia|done].
      * intros q h' Hq Hq'. destruct (decide (q = i)) as [->|Ne].
        -- congruence.
        -- apply (IH q h'); [lia|done].
Qed.

(** C10: in a game whose hands are those of the players
    [0 .. players - 1], [get_player] returns the least player index
    whose hand is bound to the identifier, and raises [GameFailure]
    exactly when no hand is bound to it. *)
Theorem get_player_spec (g : Game) (hw : Z) :
  (forall p : Z, is_Some (hands g !! p) <-> 0 <= p < Z.of_nat (players g)) ->
  (forall p : Z,
     get_player g hw = Done p <->
     (exists h, hands g !! p = Some h /\ hw ∈ rfids h)
     /\ (forall q h, q < p -> hands g !! q = Some h -> hw ∉ rfids h))
  /\ (get_player g hw = Raise GameFailure <->
      forall q h, hands g !! q = Some h -> hw ∉ rfids h).
Proof.
  intros Hdom.
  assert (Hk : forall q h, hands g !! q = Some h ->
            exists k, q = Z.of_nat k /\ (k < players g)%nat).
  { intros q h Hq. destruct (proj1 (Hdom q)) as [H0 H1]; [by exists h|].
    exists (Z.to_nat q). lia. }
  pose proof (get_player_loop_seq (hands g) hw (players g) 0) as L.
  unfold get_player, range.
  destruct (get_player_loop (hands g) hw (Z.of_nat <$> seq 0 (players g)))
    as [p|e| |] eqn:E.
  - destruct L as (k & -> & Hk1 & (h & Hh & Hin) & Hlow).
    { intros q Hq. apply Hdom. lia. }
    split.
    + intros p. split.
      * intros [= <-]. split; [by exists h|].
        intros q h' Hq Hq'. destruct (Hk q h' Hq') as (j & -> & Hj).
        apply (Hlow j h'); [lia|done].
      * intros [(h' & Hh' & Hin') Hlow']. f_equal.
        destruct (Hk p h' Hh') as (j & -> & Hj).
        destruct (Z.lt_trichotomy (Z.of_nat k) (Z.of_nat j)) as [Lt|[Eq|Gt]];
          [|done|].
        -- destruct (Hlow' (Z.of_nat k) h Lt Hh Hin).
        -- destruct (Hlow j h'); [lia|done|done].
    + split; [done|]. intros Hno. destruct (Hno _ _ Hh Hin).
  - destruct e; try (destruct L; intros q Hq; apply Hdom; lia).
    assert (Hno : forall q h, hands g !! q = Some h -> hw ∉ rfids h).
    { intros q h Hq. destruct (Hk q h Hq) as (j & -> & Hj).
      apply (L ltac:(intros r Hr; apply Hdom; lia) j h); [lia|done]. }
    split; [|done].
    intros p. split; [done|]. intros [(h & Hh & Hin) _].
    destruct (Hno _ _ Hh Hin).
  - destruct L. intros q Hq. apply Hdom. lia.
  - destruct L. intros q Hq. apply Hdom. lia.
Qed.

Lemma game_both_dom (p : Z) :
  is_Some (hands game_both !! p) <-> 0 <= p < Z.of_nat (players game_both).
Proof.
  simpl. destruct (decide (p = 0)) as [->|N0]; [by split; [lia|eauto]|].
  destruct (decide (p = 1)) as [->|N1]; [by split; [lia|eauto]|].
  rewrite !lookup_insert_ne, lookup_empty by done.
  split; [intros [? [=]]|lia].
Qed.

Lemma get_player_spec_witness :
  get_player game_both 11 = Done 0
  /\ get_player game_both 33 = Raise GameFailure.
Proof.
  split.
  - apply (proj1 (get_player_spec game_both 11 game_both_dom)). split.
    + eexists. split; [reflexivity|]. apply list_elem_of_In. simpl. auto.
    + intros q h Hq Hl. pose proof (proj1 (game_both_dom q) (ex_intro _ h Hl)).
      lia.
  - apply (proj2 (get_player_spec game_both 33 game_both_dom)).
    intros q h. simpl.
    destruct (decide (q = 0)) as [->|N0].
    { rewrite lookup_insert_eq. intros [= <-] Hin.
      apply list_elem_of_In in Hin. simpl in Hin. lia. }
    destruct (decide (q = 1)) as [->|N1].
    { rewrite lookup_insert_ne, lookup_insert_eq by done. intros [= <-] Hin.
      apply list_elem_of_In in Hin. simpl in Hin. lia. }
    rewrite !lookup_insert_ne, lookup_empty by done. done.
Defined.

(** ** Distribution *)

(** [distribute] on the round of [c0] against [c1] between two hands. *)
Lemma distribute_run (g : Game) (winner : Z) (c0 c1 : Card) (h0 h1 : Hand) :
  hands g !! 0 = Some h0 ->
  hands g !! 1 = Some h1 ->
  winner = -1 \/ winner = 0 \/ winner = 1 ->
  exists g',
    distribute g winner (round_cards c0 c1) = Done g'
    /\ hands g' !! 0
       = Some (mkHand (active h0 ++ [c0])
                 (dead h0 ++ (if decide (winner = 0) then [c0; c1] else []))
                 (rfids h0) (turn h0))
    /\ hands g' !! 1
       = Some (mkHand (active h1 ++ [c1])
                 (dead h1 ++ (if decide (winner = 1) then [c0; c1] else []))
                 (rfids h1) (turn h1)).
Proof.
  intros H0 H1 Hw. unfold distribute, dead_append, active_append.
  change (round_card (round_cards c0 c1) 0 0) with (Done c0).
  change (round_card (round_cards c0 c1) 1 1) with (Done c1).
  destruct Hw as [-> | [-> | ->]]; case_bool_decide; try done;
    repeat case_decide; try done; cbn;
    repeat (first [ rewrite H0 | rewrite H1 | rewrite lookup_insert_eq
                  | rewrite lookup_insert_ne by done ]; cbn);
    eexists; (split; [reflexivity|]); cbn;
    repeat (first [ rewrite lookup_insert_eq
                  | rewrite lookup_insert_ne by done ]);
    rewrite ?app_nil_r, <- ?app_assoc; cbn; done.
Qed.

(** C3, as the code has it: [distribute] appends each played card to
    the back of its owner's [active] list, and with a winner appends
    both played cards, player 0's first, to the winner's [dead] pile. *)
Theorem distribute_spec (g : Game) (winner : Z) (current_round : list play)
    (c0 c1 : Card) (h0 h1 : Hand) :
  round_card current_round 0 0 = Done c0 ->
  round_card current_round 1 1 = Done c1 ->
  hands g !! 0 = Some h0 ->
  hands g !! 1 = Some h1 ->
  winner = -1 \/ winner = 0 \/ winner = 1 ->
  exists g',
    distribute g winner current_round = Done g'
    /\ hands g' !! 0
       = Some (mkHand (active h0 ++ [c0])
                 (dead h0 ++ (if decide (winner = 0) then [c0; c1] else []))
                 (rfids h0) (turn h0))
    /\ hands g' !! 1
       = Some (mkHand (active h1 ++ [c1])
                 (dead h1 ++ (if decide (winner = 1) then [c0; c1] else []))
                 (rfids h1) (turn h1)).
Proof.
  intros R0 R1 H0 H1 Hw.
  unfold distribute, dead_append, active_append. rewrite R0, R1.
  destruct Hw as [-> | [-> | ->]]; case_bool_decide; try done;
    repeat case_decide; try done; cbn;
    repeat (first [ rewrite H0 | rewrite H1 | rewrite lookup_insert_eq
                  | rewrite lookup_insert_ne by done ]; cbn);
    eexists; (split; [reflexivity|]); cbn;
    repeat (first [ rewrite lookup_insert_eq
                  | rewrite lookup_insert_ne by done ]);
    rewrite ?app_nil_r, <- ?app_assoc; cbn; done.
Qed.

Lemma distribute_spec_witness :
  exists g',
    distribute game_mid 0 (round_cards card_K card_5) = Done g'
    /\ hands g' !! 0
       = Some (mkHand [card_9; card_K] [card_K; card_5] [11] (Some true))
    /\ hands g' !! 1
       = Some (mkHand [card_2; card_5] [] [22] (Some false)).
Proof.
  apply (distribute_spec game_mid 0 (round_cards card_K card_5) card_K card_5
           (mkHand [card_9] [] [11] (Some true))
           (mkHand [card_2] [] [22] (Some false)));
    [reflexivity | reflexivity | reflexivity | reflexivity | lia].
Defined.

(** C3 fails on the side of the queue: player 0 holds the nine and has
    played the king; after [distribute] the king is behind the nine,
    not in front of it. *)
Lemma distribute_appends_to_back :
  exists g',
    distribute game_mid 0 (round_cards card_K card_5) = Done g'
    /\ active <$> hands g' !! 0 = Some [card_9; card_K]
    /\ active <$> hands g' !! 0 <> Some (card_K :: [card_9]).
Proof.
  eexists. split; [reflexivity|]. split; [reflexivity|]. discriminate.
Qed.

(** ** Running the outcome monad *)

Lemma bind_Done {A B : Type} (m : outcome A) (k : A -> outcome B) (b : B) :
  m ≫= k = Done b -> exists a, m = Done a /\ k a = Done b.
Proof. destruct m; cbn; intros H; try discriminate. eauto. Qed.

Lemma or_raise_Done {A : Type} (e : exn) (o : option A) (a : A) :
  or_raise e o = Done a -> o = Some a.
Proof. destruct o; cbn; congruence. Qed.

Tactic Notation "inv_bind" hyp(H) :=
  let a := fresh "a" in
  let E := fresh "E" in
  apply bind_Done in H as (a & E & H).

Tactic Notation "inv_bind" hyp(H) "as" ident(a) ident(E) :=
  apply bind_Done in H as (a & E & H).

Ltac inv_raise H := apply or_raise_Done in H.

(** ** Turns *)

Lemma range_2 : range 2 = [0; 1].
Proof. reflexivity. Qed.

Lemma switch_turns_run (g : Game) (h0 h1 : Hand) :
  players g = 2%nat ->
  hands g !! 0 = Some h0 ->
  hands g !! 1 = Some h1 ->
  switch_turns g
  = Done (set_hands g (<[1 := flip_turn h1]> (<[0 := flip_turn h0]> (hands g)))).
Proof.
  intros P H0 H1. unfold switch_turns. rewrite P, range_2. cbn.
  rewrite H0. cbn. rewrite lookup_insert_ne by done. rewrite H1. done.
Qed.

Lemma switch_turns_inv (g g' : Game) :
  players g = 2%nat ->
  switch_turns g = Done g' ->
  exists h0 h1,
    hands g !! 0 = Some h0 /\ hands g !! 1 = Some h1
    /\ g' = set_hands g (<[1 := flip_turn h1]> (<[0 := flip_turn h0]> (hands g))).
Proof.
  intros P H.
  destruct (hands g !! 0) as [h0|] eqn:H0;
    [|by unfold switch_turns in H; rewrite P, range_2 in H; cbn in H;
        rewrite H0 in H].
  destruct (hands g !! 1) as [h1|] eqn:H1.
  - rewrite (switch_turns_run g h0 h1 P H0 H1) in H. injection H as <-. eauto.
  - unfold switch_turns in H. rewrite P, range_2 in H. cbn in H.
    rewrite H0 in H. cbn in H. rewrite lookup_insert_ne in H by done.
    by rewrite H1 in H.
Qed.

Lemma has_turn_flip (h : Hand) : has_turn (flip_turn h) = negb (has_turn h).
Proof.
  unfold has_turn, flip_turn. destruct h as [a d r [[|]|]]; reflexivity.
Qed.

Lemma one_turn_switch (g g' : Game) :
  players g = 2%nat ->
  switch_turns g = Done g' ->
  one_turn g' = one_turn g.
Proof.
  intros P H. destruct (switch_turns_inv g g' P H) as (h0 & h1 & H0 & H1 & ->).
  unfold one_turn. cbn. rewrite H0, H1.
  rewrite lookup_insert_ne, lookup_insert_eq, lookup_insert_eq by done.
  rewrite !has_turn_flip. by destruct (has_turn h0), (has_turn h1).
Qed.

(** ** One play *)

Lemma get_player_two (g : Game) (hw p : Z) :
  players g = 2%nat ->
  get_player g hw = Done p ->
  (p = 0 \/ p = 1) /\ exists h, hands g !! p = Some h /\ hw ∈ rfids h.
Proof.
  intros P H. unfold get_player in H. rewrite P, range_2 in H. cbn in H.
  inv_bind H. inv_raise E. case_bool_decide.
  - injection H as <-. eauto.
  - inv_bind H. inv_raise E0. case_bool_decide; [|done].
    injection H as <-. eauto.
Qed.

Lemma get_player_first (g : Game) (hw : Z) (h0 : Hand) :
  players g = 2%nat ->
  hands g !! 0 = Some h0 ->
  hw ∈ rfids h0 ->
  get_player g hw = Done 0.
Proof.
  intros P H0 Hin. unfold get_player. rewrite P, range_2. cbn.
  rewrite H0. cbn. by rewrite bool_decide_eq_true_2.
Qed.

Lemma get_player_second (g : Game) (hw : Z) (h0 h1 : Hand) :
  players g = 2%nat ->
  hands g !! 0 = Some h0 ->
  hands g !! 1 = Some h1 ->
  hw ∉ rfids h0 ->
  hw ∈ rfids h1 ->
  get_player g hw = Done 1.
Proof.
  intros P H0 H1 Hn Hin. unfold get_player. rewrite P, range_2. cbn.
  rewrite H0. cbn. rewrite bool_decide_eq_false_2 by done.
  rewrite H1. cbn. by rewrite bool_decide_eq_true_2.
Qed.

Lemma wait_turn_Done (g : Game) (reads : list read) (hw : Z)
    (rest : list read) :
  wait_turn g reads = Done (hw, rest) -> is_turn g hw = Done true.
Proof.
  induction reads as [|[r|e] reads IH]; [done| |done]. cbn. intros H.
  inv_bind H. destruct a.
  - injection H as <- <-. done.
  - by apply IH.
Qed.

Lemma has_turn_set_active (h : Hand) (a : list Card) :
  has_turn (set_active h a) = has_turn h.
Proof. reflexivity. Qed.

(** What a completed call of [get_player_info] has done. *)
Lemma get_player_info_inv (g : Game) (reads : list read) (current : play)
    (g' : Game) (reads' : list read) :
  players g = 2%nat ->
  get_player_info g reads = Done (current, g', reads') ->
  exists h0 h1 c rest,
    hands g !! 0 = Some h0 /\ hands g !! 1 = Some h1
    /\ players g' = 2%nat
    /\ ((current = [(0, c)] /\ active h0 = c :: rest /\ has_turn h0 = true
         /\ hands g' !! 0 = Some (flip_turn (set_active h0 rest))
         /\ hands g' !! 1 = Some (flip_turn h1))
        \/ (current = [(1, c)] /\ active h1 = c :: rest /\ has_turn h1 = true
            /\ hands g' !! 0 = Some (flip_turn h0)
            /\ hands g' !! 1 = Some (flip_turn (set_active h1 rest)))).
Proof.
  intros P H. unfold get_player_info in H.
  inv_bind H. destruct a as [hw r1].
  apply wait_turn_Done in E. unfold is_turn in E.
  inv_bind E. rename a into p. rewrite E0 in H. cbn in H.
  inv_bind E. inv_raise E1. rewrite E1 in H. cbn in H.
  injection E as Ht.
  destruct (active a) as [|c rest] eqn:Ha; [done|].
  inv_bind H. injection H as <- <- <-.
  apply switch_turns_inv in E; [|done].
  destruct E as (k0 & k1 & K0 & K1 & ->). cbn in K0, K1.
  destruct (get_player_two g hw p P E0) as [[-> | ->] _].
  - rewrite lookup_insert_eq in K0. injection K0 as <-.
    rewrite lookup_insert_ne in K1 by done.
    exists a, k1, c, rest. repeat split; [done..|]. left.
    repeat split; [done..| |]; cbn.
    + by rewrite lookup_insert_ne, lookup_insert_eq.
    + by rewrite lookup_insert_eq.
  - rewrite lookup_insert_eq in K1. injection K1 as <-.
    rewrite lookup_insert_ne in K0 by done.
    exists k0, a, c, rest. repeat split; [done..|]. right.
    repeat split; [done..| |]; cbn.
    + by rewrite lookup_insert_ne, lookup_insert_eq.
    + by rewrite lookup_insert_eq.
Qed.

Lemma one_turn_play (g : Game) (reads : list read) (current : play)
    (g' : Game) (reads' : list read) :
  players g = 2%nat ->
  get_player_info g reads = Done (current, g', reads') ->
  one_turn g' = one_turn g.
Proof.
  intros P H.
  destruct (get_player_info_inv _ _ _ _ _ P H)
    as (h0 & h1 & c & rest & H0 & H1 & _ & [(_ & _ & _ & K0 & K1)|(_ & _ & _ & K0 & K1)]);
    unfold one_turn; rewrite H0, H1, K0, K1, !has_turn_flip,
      ?has_turn_set_active; by destruct (has_turn h0), (has_turn h1).
Qed.

(** ** What [distribute] leaves alone *)

Lemma dead_append_lookup (hs hs' : gmap Z Hand) (p : Z) (c : Card) :
  dead_append hs p c = Done hs' ->
  forall q, turn <$> hs' !! q = turn <$> hs !! q
         /\ active <$> hs' !! q = active <$> hs !! q.
Proof.
  unfold dead_append. intros H q. inv_bind H. inv_raise E.
  injection H as <-. destruct (decide (p = q)) as [->|Ne].
  - by rewrite lookup_insert_eq, E.
  - by rewrite lookup_insert_ne.
Qed.

Lemma active_append_lookup (hs hs' : gmap Z Hand) (p : Z) (c : Card) :
  active_append hs p c = Done hs' ->
  forall q, turn <$> hs' !! q = turn <$> hs !! q
         /\ dead <$> hs' !! q = dead <$> hs !! q.
Proof.
  unfold active_append. intros H q. inv_bind H. inv_raise E.
  injection H as <-. destruct (decide (p = q)) as [->|Ne].
  - by rewrite lookup_insert_eq, E.
  - by rewrite lookup_insert_ne.
Qed.

Lemma distribute_turns (g g' : Game) (winner : Z) (current_round : list play) :
  distribute g winner current_round = Done g' ->
  forall q, turn <$> hands g' !! q = turn <$> hands g !! q.
Proof.
  unfold distribute. intros H q. inv_bind H as hs1 E1.
  assert (T1 : turn <$> hs1 !! q = turn <$> hands g !! q).
  { case_bool_decide; [|by injection E1 as <-].
    inv_bind E1 as x1 F1. inv_bind E1 as c0 F2. inv_bind E1 as hs F3.
    apply dead_append_lookup with (q := q) in F3 as [T2 _].
    inv_bind E1 as x2 F4. inv_bind E1 as c1 F5.
    apply dead_append_lookup with (q := q) in E1 as [T3 _]. congruence. }
  inv_bind H as x1 F1. inv_bind H as c0 F2. inv_bind H as hs2 F3.
  apply active_append_lookup with (q := q) in F3 as [T2 _].
  inv_bind H as x2 F4. inv_bind H as c1 F5. inv_bind H as hs3 F6.
  apply active_append_lookup with (q := q) in F6 as [T3 _].
  injection H as <-. cbn. congruence.
Qed.

Lemma one_turn_turns (g g' : Game) :
  (forall q, turn <$> hands g' !! q = turn <$> hands g !! q) ->
  one_turn g' = one_turn g.
Proof.
  intros T. unfold one_turn, has_turn.
  pose proof (T 0) as T0. pose proof (T 1) as T1.
  destruct (hands g' !! 0), (hands g !! 0), (hands g' !! 1), (hands g !! 1);
    cbn in T0, T1; try discriminate; try done.
  injection T0 as ->. injection T1 as ->. done.
Qed.

(** ** The deal *)

(** How the loop of [register] ends: after the identifiers [ids], at
    most [n] of them, all appended to the hand, it has its [n]
    identifiers, or has met a read that raised, or waits for a read that
    does not come. *)
Lemma register_loop_spec (n : nat) :
  forall (h : Hand) (reads : list read),
    exists ids : list Z,
      (register_loop n h reads).1.2 = set_rfids h (rfids h ++ ids)
      /\ match (register_loop n h reads).1.1 with
         | Done _ =>
             length ids = n
             /\ reads = (Tag <$> ids) ++ (register_loop n h reads).2
         | Raise e =>
             (length ids < n)%nat
             /\ reads
                = (Tag <$> ids) ++ Fails e :: (register_loop n h reads).2
         | Starved => (length ids < n)%nat /\ reads = Tag <$> ids
         | OutOfFuel => False
         end.
Proof.
  induction n as [|n IH]; intros h reads.
  - exists []. cbn. rewrite app_nil_r. split; [by destruct h|done].
  - destruct reads as [|[id|e] reads].
    + exists []. cbn. rewrite app_nil_r. split; [by destruct h|].
      split; [lia|done].
    + destruct (IH (set_rfids h (rfids h ++ [id])) reads) as (ids & Hh & Ho).
      exists (id :: ids). cbn [register_loop]. split.
      * rewrite Hh. unfold set_rfids. cbn. by rewrite <- app_assoc.
      * destruct (register_loop n _ reads).1.1;
          cbn [length fmap list_fmap app];
          [destruct Ho as [<- Ho] | destruct Ho as [L Ho]
          | destruct Ho as [L Ho] | done];
          (split; [lia || done|]); by rewrite <- Ho.
    + exists []. cbn. rewrite app_nil_r. split; [by destruct h|].
      split; [lia|done].
Qed.

(** What a call of [register] that returns has done. *)
Lemma register_Done (h : Hand) (n : nat) (reads : list read) (h' : Hand)
    (reads' : list read) :
  register h n reads = Done (h', reads') ->
  exists (ids : list Z) (used : list read),
    h' = set_rfids h (rfids h ++ ids)
    /\ reads = used ++ reads'
    /\ register_used (n - length (rfids h)) ids used.
Proof.
  unfold register. intros H.
  destruct (register_loop_spec (n - length (rfids h)) h reads)
    as (ids & Hh & Ho).
  destruct (register_loop (n - length (rfids h)) h reads) as [[o h1] r1].
  cbn in Hh, Ho. subst h1. destruct o as [[]|e| |]; try done.
  - injection H as <- <-. destruct Ho as [L ->].
    exists ids, (Tag <$> ids). split; [done|]. split; [done|]. by left.
  - destruct (is_Exception e) eqn:Ee; [|done]. injection H as <- <-.
    destruct Ho as [L ->]. exists ids, ((Tag <$> ids) ++ [Fails e]).
    split; [done|]. split; [by rewrite <- app_assoc|]. right. eauto.
Qed.

(** The step of the loop of [create_hands], when it completes. *)
Lemma deal_loop_step (deck_halves : list (list Card)) (req : nat)
    (hs hs' : gmap Z Hand) (player : Z) (ps : list Z)
    (reads reads' : list read) :
  deal_loop deck_halves req hs (player :: ps) reads = Done (hs', reads') ->
  exists (half : list Card) (ids : list Z) (used rest : list read),
    deck_halves !! Z.to_nat player = Some half
    /\ ids <> [] /\ register_used req ids used
    /\ reads = used ++ rest
    /\ deal_loop deck_halves req (<[player := mkHand half [] ids None]> hs)
         ps rest
       = Done (hs', reads').
Proof.
  cbn [deal_loop]. intros H. inv_bind H as half E. inv_raise E.
  inv_bind H as x E1. destruct x as [h r1].
  apply register_Done in E1 as (ids & used & -> & -> & U).
  cbn in U. rewrite Nat.sub_0_r in U.
  inv_bind H as z E2. inv_raise E2. cbn in E2.
  exists half, ids, used, r1. repeat split; try done.
  by intros ->.
Qed.

(** What a completed deal of a two-player game has done. *)
Lemma create_hands_inv (shuffled : list Card) (g g' : Game)
    (reads reads' : list read) :
  players g = 2%nat ->
  create_hands shuffled g reads = Done (g', reads') ->
  let k := (length shuffled / 2)%nat in
  let req := (req_hw g / 2)%nat in
  exists (l0 l1 : list Z) (u0 u1 : list read),
    hands g' !! 0 = Some (mkHand (take k shuffled) [] l0 (Some true))
    /\ hands g' !! 1 = Some (mkHand (drop k shuffled) [] l1 None)
    /\ players g' = 2%nat
    /\ cards (deck g') = shuffled
    /\ l0 <> [] /\ l1 <> []
    /\ register_used req l0 u0 /\ register_used req l1 u1
    /\ reads = u0 ++ u1 ++ reads'.
Proof.
  intros P H k req. unfold create_hands in H. rewrite P, range_2 in H.
  fold k req in H. clearbody k req. cbn -[deal_loop] in H.
  inv_bind H as x E. destruct x as [hs r]. inv_bind H as h0 E0. inv_raise E0.
  injection H as <- <-.
  apply deal_loop_step in E
    as (half0 & l0 & u0 & r0 & Eh0 & N0 & U0 & -> & E).
  apply deal_loop_step in E
    as (half1 & l1 & u1 & r1 & Eh1 & N1 & U1 & -> & E).
  injection E as <- <-.
  change (Z.to_nat 0) with 0%nat in Eh0. change (Z.to_nat 1) with 1%nat in Eh1.
  injection Eh0 as <-. injection Eh1 as <-.
  rewrite lookup_insert_ne, lookup_insert_eq in E0 by done.
  injection E0 as <-.
  exists l0, l1, u0, u1. cbn.
  split; [by rewrite lookup_insert_eq|].
  split; [by rewrite lookup_insert_ne, lookup_insert_eq|].
  by repeat split.
Qed.

(** The same for a game that asks for one identifier per player, as
    War does: the deal has used two reads, both of them identifiers. *)
Lemma create_hands_inv_one (shuffled : list Card) (g g' : Game)
    (reads reads' : list read) :
  players g = 2%nat ->
  (req_hw g / 2)%nat = 1%nat ->
  create_hands shuffled g reads = Done (g', reads') ->
  let k := (length shuffled / 2)%nat in
  exists r0 r1 : Z,
    reads = Tag r0 :: Tag r1 :: reads'
    /\ hands g' !! 0 = Some (mkHand (take k shuffled) [] [r0] (Some true))
    /\ hands g' !! 1 = Some (mkHand (drop k shuffled) [] [r1] None)
    /\ players g' = 2%nat
    /\ cards (deck g') = shuffled.
Proof.
  intros P Q H k.
  destruct (create_hands_inv _ _ _ _ _ P H)
    as (l0 & l1 & u0 & u1 & H0 & H1 & Pg & D & N0 & N1 & U0 & U1 & ->).
  rewrite Q in U0, U1.
  assert (One : forall l u, l <> [] -> register_used 1 l u ->
                  exists r, l = [r] /\ u = [Tag r]).
  { intros [|r [|r' l]] u N [[L ->]|[L _]]; try done; cbn in L; try lia.
    by exists r. }
  destruct (One l0 u0 N0 U0) as (r0 & -> & ->).
  destruct (One l1 u1 N1 U1) as (r1 & -> & ->).
  exists r0, r1. by repeat split.
Qed.

Lemma War_init_standard : War_init standard_dict = Done war_new.
Proof. reflexivity. Qed.

Lemma war_dealt_eq :
  create_hands (cards standard_deck) war_new [Tag 11; Tag 22]
  = Done (war_dealt, []).
Proof. vm_compute. reflexivity. Qed.

Lemma distribute_players (g g' : Game) (winner : Z) (current_round : list play) :
  distribute g winner current_round = Done g' -> players g' = players g.
Proof.
  unfold distribute. intros H.
  inv_bind H as hs1 E1. inv_bind H as x1 F1. inv_bind H as c0 F2.
  inv_bind H as hs2 F3. inv_bind H as x2 F4. inv_bind H as c1 F5.
  inv_bind H as hs3 F6. by injection H as <-.
Qed.

(** ** Turn arbitration *)

(** C5: in a game of War, from the end of the deal on, through every
    play, distribution and turn switch, exactly one of the two hands
    has its turn flag true. *)
Theorem turn_exclusive (g0 g : Game) :
  players g0 = 2%nat -> reachable g0 g -> one_turn g = true.
Proof.
  intros P R. cut (players g = 2%nat /\ one_turn g = true); [tauto|].
  induction R as [sh reads g reads' H | g reads cur g' reads' R [Pg IH] H
                 | g w cr g' R [Pg IH] H | g g' R [Pg IH] H].
  - destruct (create_hands_inv sh g0 g reads reads' P H)
      as (l0 & l1 & u0 & u1 & H0 & H1 & Pg & _). split; [done|].
    unfold one_turn. by rewrite H0, H1.
  - split.
    + by destruct (get_player_info_inv _ _ _ _ _ Pg H)
        as (? & ? & ? & ? & _ & _ & ? & _).
    + by rewrite (one_turn_play _ _ _ _ _ Pg H).
  - split.
    + by rewrite (distribute_players _ _ _ _ H).
    + by rewrite (one_turn_turns _ _ (distribute_turns _ _ _ _ H)).
  - split.
    + by destruct (switch_turns_inv _ _ Pg H) as (? & ? & _ & _ & ->).
    + by rewrite (one_turn_switch _ _ Pg H).
Qed.

Lemma turn_exclusive_witness : one_turn war_dealt = true.
Proof.
  apply (turn_exclusive war_new war_dealt); [reflexivity|].
  apply (reach_deal war_new (cards standard_deck) [Tag 11; Tag 22]
           war_dealt []).
  exact war_dealt_eq.
Defined.

(** ** One round *)

Lemma check_winner_range (c d : Card) (w : Z) :
  check_winner (round_cards c d) = Done w -> w = -1 \/ w = 0 \/ w = 1.
Proof.
  unfold check_winner, round_cards. cbn.
  destruct (py_gt (translate_A_K (value c)) (translate_A_K (value d)))
    as [[|]| | |]; cbn; try done; [intros [= <-]; auto|].
  destruct (py_gt (translate_A_K (value d)) (translate_A_K (value c)))
    as [[|]| | |]; cbn; try done; [intros [= <-]; auto|].
  destruct (py_eq _ _); [intros [= <-]; auto|done].
Qed.

Lemma turn_twice (h : Hand) (a : list Card) :
  has_turn h = true ->
  flip_turn (flip_turn (set_active h a))
  = mkHand a (dead h) (rfids h) (Some true).
Proof. destruct h as [a' d r [[|]|]]; cbn; done. Qed.

Lemma turn_second (h : Hand) (a : list Card) :
  has_turn (flip_turn h) = true ->
  flip_turn (set_active (flip_turn h) a)
  = mkHand a (dead h) (rfids h) (Some false)
  /\ has_turn h = false.
Proof. destruct h as [a' d r [[|]|]]; cbn; done. Qed.

(** What a completed round has done: player 0 played the front card of
    its queue, then player 1; each card is back at the end of its
    owner's queue, and the winner's pile has grown by both. *)
Lemma play_round_inv (g : Game) (reads : list read) (w : Z) (g' : Game)
    (reads' : list read) :
  players g = 2%nat ->
  play_round g reads = Done (w, g', reads') ->
  exists h0 h1 c0 a0 c1 a1,
    hands g !! 0 = Some h0 /\ hands g !! 1 = Some h1
    /\ active h0 = c0 :: a0 /\ active h1 = c1 :: a1
    /\ has_turn h0 = true /\ has_turn h1 = false
    /\ check_winner (round_cards c0 c1) = Done w
    /\ (w = -1 \/ w = 0 \/ w = 1)
    /\ players g' = 2%nat
    /\ hands g' !! 0
       = Some (mkHand (a0 ++ [c0])
                 (dead h0 ++ (if decide (w = 0) then [c0; c1] else []))
                 (rfids h0) (Some true))
    /\ hands g' !! 1
       = Some (mkHand (a1 ++ [c1])
                 (dead h1 ++ (if decide (w = 1) then [c0; c1] else []))
                 (rfids h1) (Some false)).
Proof.
  intros P H. unfold play_round in H. rewrite P, range_2 in H. cbn in H.
  inv_bind H as x1 E1. destruct x1 as [[cr g2] r2].
  inv_bind E1 as x2 E2. destruct x2 as [[cur1 g1] r1].
  inv_bind E1 as x3 E3. destruct x3 as [[cur2 g2'] r2'].
  injection E1 as <- <- <-.
  inv_bind H as w' E4. inv_bind H as g3 E5. injection H as -> -> ->.
  destruct (get_player_info_inv _ _ _ _ _ P E2)
    as (h0 & h1 & c & a & H0 & H1 & P1 & Hcase1).
  destruct (get_player_info_inv _ _ _ _ _ P1 E3)
    as (k0 & k1 & d & b & K0 & K1 & P2 & Hcase2).
  destruct Hcase1 as [(-> & A0 & T0 & G0 & G1)|(-> & A1 & T1 & G0 & G1)];
    [|by cbn in E4].
  destruct Hcase2 as [(-> & B0 & U0 & J0 & J1)|(-> & B1 & U1 & J0 & J1)];
    [by cbn in E4|].
  rewrite G0 in K0. injection K0 as <-.
  rewrite G1 in K1. injection K1 as <-.
  destruct (turn_second h1 b U1) as [Eh1 T1]. rewrite Eh1 in J1.
  rewrite (turn_twice h0 a T0) in J0.
  change (check_winner (round_cards c d) = Done w) in E4.
  change (distribute g2' w (round_cards c d) = Done g') in E5.
  pose proof (check_winner_range c d w E4) as Hw.
  destruct (distribute_run g2' w c d _ _ J0 J1 Hw) as (g4 & D & L0 & L1).
  rewrite D in E5. injection E5 as <-.
  exists h0, h1, c, a, d, b. cbn in B1.
  repeat split; try done.
  by rewrite (distribute_players _ _ _ _ D).
Qed.

(** ** The sizes of the hands *)

Lemma length_rotate1 (l : list Card) : length (rotate1 l) = length l.
Proof. destruct l; [done|]. cbn. rewrite length_app. cbn. lia. Qed.

Lemma length_iter_rotate1 (n : nat) (l : list Card) :
  length (Nat.iter n rotate1 l) = length l.
Proof.
  induction n as [|n IH]; [done|]. cbn. by rewrite length_rotate1.
Qed.

(** C9: through any number of completed rounds the [active] queue of
    each hand only turns: each round moves its front card to its back,
    so its length never changes and a queue that was not empty never
    becomes empty. *)
Theorem active_rotates (n : nat) (g : Game) (reads : list read) (g' : Game)
    (reads' : list read) (p : Z) (h : Hand) :
  players g = 2%nat ->
  play_rounds n g reads = Done (g', reads') ->
  p = 0 \/ p = 1 ->
  hands g !! p = Some h ->
  exists h',
    hands g' !! p = Some h'
    /\ active h' = Nat.iter n rotate1 (active h)
    /\ length (active h') = length (active h)
    /\ (active h <> [] -> active h' <> []).
Proof.
  intros P H Hp Hh.
  cut (exists h', hands g' !! p = Some h'
                  /\ active h' = Nat.iter n rotate1 (active h)).
  { intros (h' & Hh' & Ha). exists h'. split; [done|]. split; [done|].
    assert (L : length (active h') = length (active h))
      by (by rewrite Ha, length_iter_rotate1).
    split; [done|]. intros Ne E. rewrite E in L.
    destruct (active h); [done|discriminate]. }
  revert g reads h P H Hh. induction n as [|n IH]; intros g reads h P H Hh.
  - injection H as <- <-. by exists h.
  - cbn in H. inv_bind H as x E. destruct x as [[w g1] r1].
    destruct (play_round_inv _ _ _ _ _ P E)
      as (h0 & h1 & c0 & a0 & c1 & a1 & H0 & H1 & A0 & A1 & _ & _ & _ & _
          & P1 & G0 & G1).
    rewrite Nat.iter_succ_r.
    destruct Hp as [-> | ->].
    + rewrite H0 in Hh. injection Hh as <-.
      destruct (IH g1 r1 _ P1 H G0) as (h' & Hh' & Ha).
      exists h'. split; [done|]. by rewrite Ha, A0.
    + rewrite H1 in Hh. injection Hh as <-.
      destruct (IH g1 r1 _ P1 H G1) as (h' & Hh' & Ha).
      exists h'. split; [done|]. by rewrite Ha, A1.
Qed.

Lemma war_dealt_2_eq :
  play_rounds 2 war_dealt [Tag 11; Tag 22; Tag 11; Tag 22]
  = Done (war_dealt_2, []).
Proof. vm_compute. reflexivity. Qed.

Lemma active_rotates_witness :
  exists h',
    hands war_dealt_2 !! 0 = Some h'
    /\ active h' = Nat.iter 2 rotate1 (take 26 (cards standard_deck))
    /\ length (active h') = 26%nat
    /\ (take 26 (cards standard_deck) <> [] -> active h' <> []).
Proof.
  apply (active_rotates 2 war_dealt [Tag 11; Tag 22; Tag 11; Tag 22]
           war_dealt_2 [] 0
           (mkHand (take 26 (cards standard_deck)) [] [11] (Some true)));
    [reflexivity | exact war_dealt_2_eq | lia | reflexivity].
Defined.

Lemma war_mixed_eq :
  create_hands mixed_deck war_new [Tag 11; Tag 22] = Done (war_mixed, []).
Proof. vm_compute. reflexivity. Qed.

Lemma war_mixed_1_eq :
  play_round war_mixed [Tag 11; Tag 22] = Done (1, war_mixed_1, []).
Proof. vm_compute. reflexivity. Qed.

(** C2, as the code has it: the deal leaves each hand with an empty
    [dead] pile and its half of the deck in [active]; a round leaves
    the length of both [active] queues as it was and adds the two
    played cards to the [dead] pile of its winner, so that
    [len(active) + len(dead)] of a hand is kept by a round the hand
    ties or loses and grows by 2 in a round it wins. *)
Theorem hand_sizes :
  (forall (shuffled : list Card) (g0 : Game) (reads : list read) (g : Game)
          (reads' : list read),
     players g0 = 2%nat ->
     create_hands shuffled g0 reads = Done (g, reads') ->
     exists h0 h1,
       hands g !! 0 = Some h0 /\ hands g !! 1 = Some h1
       /\ dead h0 = [] /\ dead h1 = []
       /\ length (active h0) = (length shuffled / 2)%nat
       /\ length (active h1) = (length shuffled - length shuffled / 2)%nat)
  /\ (forall (g : Game) (reads : list read) (w : Z) (g' : Game)
             (reads' : list read),
        players g = 2%nat ->
        play_round g reads = Done (w, g', reads') ->
        exists h0 h1 h0' h1',
          hands g !! 0 = Some h0 /\ hands g !! 1 = Some h1
          /\ hands g' !! 0 = Some h0' /\ hands g' !! 1 = Some h1'
          /\ (w = -1 \/ w = 0 \/ w = 1)
          /\ length (active h0') = length (active h0)
          /\ length (active h1') = length (active h1)
          /\ length (dead h0')
             = (length (dead h0) + (if decide (w = 0)%Z then 2 else 0))%nat
          /\ length (dead h1')
             = (length (dead h1) + (if decide (w = 1)%Z then 2 else 0))%nat).
Proof.
  split.
  - intros sh g0 reads g reads' P H.
    destruct (create_hands_inv sh g0 g reads reads' P H)
      as (l0 & l1 & u0 & u1 & H0 & H1 & _).
    pose proof (Nat.Div0.mul_div_le (length sh) 2) as L.
    cbv zeta in H0, H1. remember (length sh / 2)%nat as k eqn:Ek.
    eexists _, _. split; [exact H0|]. split; [exact H1|]. cbn.
    rewrite length_take, length_drop. repeat split; try done. lia.
  - intros g reads w g' reads' P H.
    destruct (play_round_inv _ _ _ _ _ P H)
      as (h0 & h1 & c0 & a0 & c1 & a1 & H0 & H1 & A0 & A1 & _ & _ & _ & Hw
          & _ & G0 & G1).
    eexists h0, h1, _, _. split; [done|]. split; [done|].
    split; [exact G0|]. split; [exact G1|]. split; [done|]. cbn.
    rewrite A0, A1, !length_app. cbn.
    clear G0 G1. repeat split; try lia; case_decide; cbn; lia.
Qed.

Lemma hand_sizes_witness :
  (exists h0 h1,
     hands war_mixed !! 0 = Some h0 /\ hands war_mixed !! 1 = Some h1
     /\ dead h0 = [] /\ dead h1 = []
     /\ length (active h0) = (length mixed_deck / 2)%nat
     /\ length (active h1) = (length mixed_deck - length mixed_deck / 2)%nat)
  /\ (exists h0 h1 h0' h1',
        hands war_mixed !! 0 = Some h0 /\ hands war_mixed !! 1 = Some h1
        /\ hands war_mixed_1 !! 0 = Some h0'
        /\ hands war_mixed_1 !! 1 = Some h1'
        /\ (1 = -1 \/ 1 = 0 \/ 1 = 1)
        /\ length (active h0') = length (active h0)
        /\ length (active h1') = length (active h1)
        /\ length (dead h0')
           = (length (dead h0) + (if decide (1 = 0)%Z then 2 else 0))%nat
        /\ length (dead h1')
           = (length (dead h1) + (if decide (1 = 1)%Z then 2 else 0))%nat).
Proof.
  split.
  - apply (proj1 hand_sizes mixed_deck war_new [Tag 11; Tag 22] war_mixed []);
      [reflexivity | exact war_mixed_eq].
  - apply (proj2 hand_sizes war_mixed [Tag 11; Tag 22] 1 war_mixed_1 []);
      [reflexivity | exact war_mixed_1_eq].
Defined.

(** C2 fails in a round with a winner: dealt from [mixed_deck], each
    hand holds 26 cards, the 52 of the deck over the 2 players; the
    first round sets the two of hearts against the ace of clubs,
    player 1 wins it, and its hand then counts 26 + 2 cards. *)
Lemma hand_total_grows :
  create_hands mixed_deck war_new [Tag 11; Tag 22] = Done (war_mixed, [])
  /\ hand_total war_mixed 1 = Some (52 / 2)%nat
  /\ play_round war_mixed [Tag 11; Tag 22] = Done (1, war_mixed_1, [])
  /\ hand_total war_mixed_1 1 = Some 28%nat
  /\ hand_total war_mixed_1 1 <> hand_total war_mixed 1.
Proof.
  split; [exact war_mixed_eq|]. split; [reflexivity|].
  split; [exact war_mixed_1_eq|]. split; [reflexivity|].
  vm_compute. discriminate.
Qed.

(** ** Rounds with the players presenting their cards in turn *)

Lemma get_player_info_first (g : Game) (h0 h1 : Hand) (c : Card)
    (a : list Card) (r : Z) :
  players g = 2%nat ->
  hands g !! 0 = Some h0 ->
  hands g !! 1 = Some h1 ->
  has_turn h0 = true ->
  r ∈ rfids h0 ->
  active h0 = c :: a ->
  exists g', forall reads,
    get_player_info g (Tag r :: reads) = Done ([(0, c)], g', reads).
Proof.
  intros P H0 H1 T Hr A. eexists. intros reads.
  unfold get_player_info. cbn [wait_turn].
  unfold is_turn. rewrite (get_player_first g r h0 P H0 Hr). cbn -[switch_turns].
  rewrite H0. cbn -[switch_turns]. fold (has_turn h0). rewrite T. cbn -[switch_turns].
  rewrite (get_player_first g r h0 P H0 Hr). cbn -[switch_turns]. rewrite H0.
  cbn -[switch_turns]. rewrite A.
  erewrite switch_turns_run;
    [ | done | cbn; apply lookup_insert_eq
      | cbn; rewrite lookup_insert_ne by done; exact H1 ].
  cbn. reflexivity.
Qed.

Lemma get_player_info_second (g : Game) (h0 h1 : Hand) (c : Card)
    (a : list Card) (r : Z) :
  players g = 2%nat ->
  hands g !! 0 = Some h0 ->
  hands g !! 1 = Some h1 ->
  has_turn h1 = true ->
  r ∉ rfids h0 ->
  r ∈ rfids h1 ->
  active h1 = c :: a ->
  exists g', forall reads,
    get_player_info g (Tag r :: reads) = Done ([(1, c)], g', reads).
Proof.
  intros P H0 H1 T Hn Hr A. eexists. intros reads.
  unfold get_player_info. cbn [wait_turn].
  unfold is_turn. rewrite (get_player_second g r h0 h1 P H0 H1 Hn Hr). cbn -[switch_turns].
  rewrite H1. cbn -[switch_turns]. fold (has_turn h1). rewrite T. cbn -[switch_turns].
  rewrite (get_player_second g r h0 h1 P H0 H1 Hn Hr). cbn -[switch_turns]. rewrite H1.
  cbn -[switch_turns]. rewrite A.
  erewrite switch_turns_run;
    [ | done | cbn; rewrite lookup_insert_ne by done; exact H0
      | cbn; apply lookup_insert_eq ].
  cbn. reflexivity.
Qed.

(** A round of a seated game completes, and leaves the game seated. *)
Lemma play_round_run (r0 r1 : Z) (g : Game) (c d : Card)
    (q : list (Card * Card)) (n0 n1 : nat) (w : Z) :
  seated r0 r1 g ((c, d) :: q) n0 n1 ->
  check_winner (round_cards c d) = Done w ->
  exists g',
    (forall reads,
       play_round g (Tag r0 :: Tag r1 :: reads) = Done (w, g', reads))
    /\ seated r0 r1 g' (q ++ [(c, d)])
         (n0 + (if decide (w = 0) then 2 else 0))
         (n1 + (if decide (w = 1) then 2 else 0)).
Proof.
  intros (P & h0 & h1 & H0 & H1 & A0 & A1 & D0 & D1 & T0 & T1 & R0 & Rn & R1) W.
  cbn in A0, A1.
  destruct (get_player_info_first g h0 h1 c (q.*1) r0 P H0 H1 T0 R0 A0)
    as (g1 & E1).
  destruct (get_player_info_inv _ _ _ _ _ P (E1 []))
    as (k0 & k1 & c' & a' & K0 & K1 & P1 & [(Ec & B0 & _ & G0 & G1)|(Ec & _)]);
    [|discriminate].
  rewrite H0 in K0. injection K0 as <-. rewrite H1 in K1. injection K1 as <-.
  rewrite A0 in B0. injection B0 as <- <-. clear Ec.
  destruct (get_player_info_second g1 _ _ d (q.*2) r1 P1 G0 G1)
    as (g2 & E2); [by rewrite has_turn_flip, T1|done|done|done|].
  assert (E : exists g', forall reads,
                play_round g (Tag r0 :: Tag r1 :: reads) = Done (w, g', reads)).
  { destruct (get_player_info_inv _ _ _ _ _ P1 (E2 []))
      as (k0 & k1 & c' & a' & K0 & K1 & P2
          & [(Ec & _)|(Ec & B1 & _ & J0 & J1)]); [discriminate|].
    destruct (distribute_run g2 w c d _ _ J0 J1 (check_winner_range c d w W))
      as (g3 & D & _).
    exists g3. intros reads.
    unfold play_round. rewrite P, range_2. cbn [collect_plays].
    rewrite E1. cbn -[get_player_info check_winner distribute].
    rewrite E2. cbn -[check_winner distribute].
    change [[(0, c)]; [(1, d)]] with (round_cards c d).
    rewrite W. cbn -[distribute]. rewrite D. done. }
  destruct E as (g' & E). exists g'. split; [done|].
  destruct (play_round_inv _ _ _ _ _ P (E []))
    as (k0 & k1 & c0 & a0 & c1 & a1 & K0 & K1 & B0 & B1 & _ & _ & _ & _
        & P' & G0' & G1').
  rewrite H0 in K0. injection K0 as <-. rewrite H1 in K1. injection K1 as <-.
  rewrite A0 in B0. injection B0 as <- <-.
  rewrite A1 in B1. injection B1 as <- <-.
  split; [done|]. eexists _, _. split; [exact G0'|]. split; [exact G1'|].
  cbn. rewrite !fmap_app, !length_app, D0, D1. cbn.
  repeat split; try done; clear G0' G1'; case_decide; cbn; lia.
Qed.

(** ** The loop of [start] *)

Lemma alternating_S (n : nat) (r0 r1 : Z) :
  alternating (S n) r0 r1 = Tag r0 :: Tag r1 :: alternating n r0 r1.
Proof. reflexivity. Qed.

Lemma alternating_add (a b : nat) (r0 r1 : Z) :
  alternating (a + b) r0 r1 = alternating a r0 r1 ++ alternating b r0 r1.
Proof.
  unfold alternating. by rewrite replicate_add, concat_app.
Qed.

Lemma keep_playing_seated (r0 r1 : Z) (g : Game) (q : list (Card * Card))
    (n0 n1 : nat) :
  seated r0 r1 g q n0 n1 ->
  keep_playing g = Done ((n0 <? 52)%nat && (n1 <? 52)%nat).
Proof.
  intros (_ & h0 & h1 & H0 & H1 & _ & _ & D0 & D1 & _).
  unfold keep_playing. rewrite H0. cbn -[Nat.ltb]. rewrite D0.
  destruct (n0 <? 52)%nat; [|done]. rewrite H1. cbn -[Nat.ltb]. by rewrite D1.
Qed.

Lemma start_loop_exit (r0 r1 : Z) (g : Game) (q : list (Card * Card))
    (n0 n1 : nat) (fuel : nat) (rest : list read) :
  seated r0 r1 g q n0 n1 ->
  (52 <= n0 \/ 52 <= n1)%nat ->
  start_loop (S fuel) g rest = Done (g, rest).
Proof.
  intros S Hn. cbn -[keep_playing].
  rewrite (keep_playing_seated _ _ _ _ _ _ S).
  destruct (Nat.ltb_spec n0 52), (Nat.ltb_spec n1 52); try done; lia.
Qed.

Lemma start_loop_step (r0 r1 : Z) (g : Game) (c d : Card)
    (q : list (Card * Card)) (n0 n1 : nat) (w : Z) :
  seated r0 r1 g ((c, d) :: q) n0 n1 ->
  (n0 < 52)%nat -> (n1 < 52)%nat ->
  check_winner (round_cards c d) = Done w ->
  exists g',
    seated r0 r1 g' (q ++ [(c, d)])
      (n0 + (if decide (w = 0) then 2 else 0))
      (n1 + (if decide (w = 1) then 2 else 0))
    /\ forall fuel rest,
         start_loop (S fuel) g (Tag r0 :: Tag r1 :: rest)
         = start_loop fuel g' rest.
Proof.
  intros S L0 L1 W.
  destruct (play_round_run _ _ _ _ _ _ _ _ _ S W) as (g' & E & S').
  exists g'. split; [done|]. intros fuel rest.
  cbn -[play_round keep_playing].
  rewrite (keep_playing_seated _ _ _ _ _ _ S).
  destruct (Nat.ltb_spec n0 52), (Nat.ltb_spec n1 52); try lia.
  cbn -[play_round]. by rewrite E.
Qed.

Lemma ties_true (c d : Card) :
  ties c d = true -> check_winner (round_cards c d) = Done (-1).
Proof.
  unfold ties. destruct (check_winner (round_cards c d)) as [w| | |]; try done.
  destruct w as [|p|p]; try done. by destruct p.
Qed.

Lemma ties_false (c d : Card) :
  resolves c d = true -> ties c d = false ->
  exists w, check_winner (round_cards c d) = Done w /\ (w = 0 \/ w = 1).
Proof.
  unfold resolves, ties. intros R T.
  destruct (check_winner (round_cards c d)) as [w| | |] eqn:E; try done.
  exists w. split; [done|].
  destruct (check_winner_range c d w E) as [-> | H]; [done|done].
Qed.

(** A run of tied rounds turns the queues and changes nothing else. *)
Lemma tie_run (r0 r1 : Z) (n0 n1 : nat) (pre : list (Card * Card)) :
  (n0 < 52)%nat -> (n1 < 52)%nat ->
  Forall (fun cd => ties cd.1 cd.2 = true) pre ->
  forall (q : list (Card * Card)) (g : Game),
    seated r0 r1 g (pre ++ q) n0 n1 ->
    exists g',
      seated r0 r1 g' (q ++ pre) n0 n1
      /\ forall fuel rest,
           start_loop (length pre + fuel) g
             (alternating (length pre) r0 r1 ++ rest)
           = start_loop fuel g' rest.
Proof.
  intros L0 L1. induction 1 as [|[c d] pre T _ IH]; intros q g S.
  - exists g. rewrite app_nil_r. by split.
  - cbn in T. apply ties_true in T.
    destruct (start_loop_step _ _ _ _ _ _ _ _ _ S L0 L1 T) as (g1 & S1 & E1).
    cbn in S1. rewrite !Nat.add_0_r, <- app_assoc in S1.
    destruct (IH (q ++ [(c, d)]) g1 S1) as (g' & S' & E').
    exists g'. rewrite <- app_assoc in S'. split; [done|].
    intros fuel rest. cbn [length]. rewrite alternating_S.
    cbn [app Nat.add]. by rewrite E1, E'.
Qed.

Lemma first_nontie (q : list (Card * Card)) :
  Exists (fun cd => ties cd.1 cd.2 = false) q ->
  exists pre c d post,
    q = pre ++ (c, d) :: post
    /\ Forall (fun cd => ties cd.1 cd.2 = true) pre
    /\ ties c d = false.
Proof.
  induction q as [|[c d] q IH]; intros H; [by apply Exists_nil in H|].
  destruct (ties c d) eqn:T.
  - apply Exists_cons in H as [H|H]; [cbn in H; congruence|].
    destruct (IH H) as (pre & c' & d' & post & -> & F & T').
    exists ((c, d) :: pre), c', d', post. repeat split; [|done].
    by constructor.
  - exists [], c, d, q. by repeat split.
Qed.

(** From a seated game in which some round to come is not a tie, the
    loop of [start] ends, with one pile at 52 and the other below. *)
Lemma war_ends (r0 r1 : Z) (b : nat) :
  forall (k0 k1 : nat) (g : Game) (q : list (Card * Card)),
    (52 <= k0 + k1 + b)%nat ->
    (k0 <= 26)%nat -> (k1 <= 26)%nat -> ~ (k0 = 26%nat /\ k1 = 26%nat) ->
    seated r0 r1 g q (2 * k0) (2 * k1) ->
    Forall (fun cd => resolves cd.1 cd.2 = true) q ->
    Exists (fun cd => ties cd.1 cd.2 = false) q ->
    exists (n : nat) (g' : Game) (q' : list (Card * Card)) (m0 m1 : nat),
      seated r0 r1 g' q' m0 m1
      /\ ((m0 = 52%nat /\ (m1 < 52)%nat) \/ ((m0 < 52)%nat /\ m1 = 52%nat))
      /\ forall fuel rest,
           start_loop (n + S fuel) g (alternating n r0 r1 ++ rest)
           = Done (g', rest).
Proof.
  induction b as [|b IH]; intros k0 k1 g q Hb L0 L1 Hnot Hs R X; [lia|].
  destruct (decide (k0 = 26%nat \/ k1 = 26%nat)) as [Hend|Hrun].
  - exists 0%nat, g, q, (2 * k0)%nat, (2 * k1)%nat.
    split; [done|]. split; [lia|]. intros fuel rest.
    apply (start_loop_exit r0 r1 g q (2 * k0) (2 * k1)); [done|lia].
  - destruct (first_nontie q X) as (pre & c & d & post & -> & Tpre & Tcd).
    apply Forall_app in R as [Rpre R]. apply Forall_cons in R as [Rcd Rpost].
    cbn in Rcd.
    destruct (tie_run r0 r1 (2 * k0) (2 * k1) pre ltac:(lia) ltac:(lia) Tpre
                ((c, d) :: post) g Hs) as (g1 & S1 & E1).
    destruct (ties_false c d Rcd Tcd) as (w & W & Hw).
    destruct (start_loop_step r0 r1 g1 c d (post ++ pre) (2 * k0) (2 * k1) w
                S1 ltac:(lia) ltac:(lia) W) as (g2 & S2 & E2).
    assert (R2 : Forall (fun cd => resolves cd.1 cd.2 = true)
                   ((post ++ pre) ++ [(c, d)])).
    { rewrite !Forall_app. repeat split; try done. by constructor. }
    assert (X2 : Exists (fun cd => ties cd.1 cd.2 = false)
                   ((post ++ pre) ++ [(c, d)])).
    { apply Exists_app. right. by constructor. }
    destruct Hw as [-> | ->].
    + replace (2 * k0 + (if decide (0 = 0)%Z then 2 else 0))%nat
        with (2 * (k0 + 1))%nat in S2 by (destruct (decide _); lia).
      replace (2 * k1 + (if decide (0 = 1)%Z then 2 else 0))%nat
        with (2 * k1)%nat in S2 by (destruct (decide _); lia).
      destruct (IH (k0 + 1)%nat k1 g2 _ ltac:(lia) ltac:(lia) ltac:(lia)
                  ltac:(lia) S2 R2 X2) as (n & g' & q' & m0 & m1 & S' & M & E').
      exists (length pre + S n)%nat, g', q', m0, m1.
      split; [done|]. split; [done|]. intros fuel rest.
      rewrite alternating_add, <- app_assoc, <- Nat.add_assoc, E1.
      rewrite alternating_S. cbn [app Nat.add]. by rewrite E2, E'.
    + replace (2 * k0 + (if decide (1 = 0)%Z then 2 else 0))%nat
        with (2 * k0)%nat in S2 by (destruct (decide _); lia).
      replace (2 * k1 + (if decide (1 = 1)%Z then 2 else 0))%nat
        with (2 * (k1 + 1))%nat in S2 by (destruct (decide _); lia).
      destruct (IH k0 (k1 + 1)%nat g2 _ ltac:(lia) ltac:(lia) ltac:(lia)
                  ltac:(lia) S2 R2 X2) as (n & g' & q' & m0 & m1 & S' & M & E').
      exists (length pre + S n)%nat, g', q', m0, m1.
      split; [done|]. split; [done|]. intros fuel rest.
      rewrite alternating_add, <- app_assoc, <- Nat.add_assoc, E1.
      rewrite alternating_S. cbn [app Nat.add]. by rewrite E2, E'.
Qed.

Lemma create_hands_run (shuffled : list Card) (g0 : Game) (r0 r1 : Z) :
  players g0 = 2%nat ->
  req_hw g0 = 2%nat ->
  exists g, forall reads,
    create_hands shuffled g0 (Tag r0 :: Tag r1 :: reads) = Done (g, reads).
Proof.
  intros P Q. eexists. intros reads.
  unfold create_hands. rewrite P, Q, range_2.
  remember (length shuffled / 2)%nat as k eqn:Ek. cbn.
  change (Z.to_nat 0) with 0%nat. change (Z.to_nat 1) with 1%nat. cbn.
  rewrite lookup_insert_ne by done. rewrite lookup_insert_eq. cbn.
  subst k. reflexivity.
Qed.

Lemma seated_deal (shuffled : list Card) (g0 g : Game) (r0 r1 : Z)
    (reads : list read) :
  players g0 = 2%nat ->
  req_hw g0 = 2%nat ->
  length shuffled = 52%nat ->
  r0 <> r1 ->
  create_hands shuffled g0 (Tag r0 :: Tag r1 :: reads) = Done (g, reads) ->
  seated r0 r1 g (aligned shuffled) 0 0.
Proof.
  intros P Q L Ne H.
  destruct (create_hands_inv_one _ _ _ _ _ P ltac:(by rewrite Q) H)
    as (x0 & x1 & [= <- <-] & H0 & H1 & Pg & _).
  rewrite L in H0, H1. change (52 / 2)%nat with 26%nat in H0, H1.
  split; [done|]. eexists _, _. split; [exact H0|]. split; [exact H1|].
  unfold aligned. rewrite L. change (52 / 2)%nat with 26%nat. cbn.
  rewrite fst_zip, snd_zip by (rewrite length_take, length_drop; lia).
  repeat split; try done.
  - apply list_elem_of_singleton. done.
  - intros ->%list_elem_of_singleton. done.
  - apply list_elem_of_singleton. done.
Qed.

Lemma translate_A_K_str (s : string) :
  exists s', translate_A_K (PStr s) = PStr s'.
Proof.
  destruct (decide (s = "A")) as [->|NA]; [by exists "Z"|].
  destruct (decide (s = "K")) as [->|NK]; [by exists "X"|].
  exists s. unfold translate_A_K.
  repeat (match goal with
          | |- context [match ?x with _ => _ end] => destruct x; try done
          end).
Qed.

Lemma resolves_str (c d : Card) :
  is_str (value c) = true -> is_str (value d) = true -> resolves c d = true.
Proof.
  unfold resolves, check_winner, round_cards. cbn.
  destruct (value c) as [|s]; [done|]. destruct (value d) as [|t]; [done|].
  intros _ _.
  destruct (translate_A_K_str s) as (s' & ->).
  destruct (translate_A_K_str t) as (t' & ->). cbn.
  destruct (String.ltb t' s') eqn:E1; cbn; [done|].
  destruct (String.ltb s' t') eqn:E2; cbn; [done|].
  rewrite (ltb_total _ _ E1 E2). by rewrite String.eqb_refl.
Qed.

Lemma announce_seated (r0 r1 : Z) (g : Game) (q : list (Card * Card))
    (m0 m1 : nat) :
  seated r0 r1 g q m0 m1 ->
  (m0 = 52%nat /\ (m1 < 52)%nat) \/ ((m0 < 52)%nat /\ m1 = 52%nat) ->
  exists w h hl,
    announce (hands g) (range (players g)) = Done (Some w)
    /\ (w = 0 \/ w = 1)
    /\ hands g !! w = Some h /\ hands g !! (1 - w) = Some hl
    /\ length (dead h) = 52%nat /\ (length (dead hl) < 52)%nat.
Proof.
  intros (P & h0 & h1 & H0 & H1 & _ & _ & D0 & D1 & _) M.
  rewrite P, range_2. cbn -[Nat.leb]. rewrite H0. cbn -[Nat.leb]. rewrite D0.
  destruct M as [[-> L]|[L ->]].
  - exists 0, h0, h1. cbn. repeat split; auto; lia.
  - destruct (Nat.leb_spec 52 m0); [lia|].
    rewrite H1. cbn -[Nat.leb]. rewrite D1.
    exists 1, h1, h0. cbn. repeat split; auto; lia.
Qed.

Lemma resolves_zip (l k : list Card) :
  Forall (fun c => is_str (value c) = true) l ->
  Forall (fun c => is_str (value c) = true) k ->
  Forall (fun cd => resolves cd.1 cd.2 = true) (zip l k).
Proof.
  intros Hl. revert k. induction Hl as [|c l Hc _ IH]; intros k Hk; [done|].
  destruct Hk as [|d k Hd Hk]; [done|]. cbn. constructor.
  - by apply resolves_str.
  - by apply IH.
Qed.

Lemma standard_deck_str :
  Forall (fun c => is_str (value c) = true) (cards standard_deck).
Proof. vm_compute. repeat constructor. Qed.

Lemma mixed_deck_perm : mixed_deck ≡ₚ cards standard_deck.
Proof.
  unfold mixed_deck. rewrite reverse_Permutation. by rewrite take_drop.
Qed.

Lemma mixed_deck_nontie :
  Exists (fun cd => ties cd.1 cd.2 = false) (aligned mixed_deck).
Proof. vm_compute. apply Exists_cons_hd. reflexivity. Qed.

(** ** Termination *)

Lemma all_tied_round (g : Game) (q : list (Card * Card)) (reads : list read)
    (w : Z) (g' : Game) (reads' : list read) :
  all_tied g q ->
  play_round g reads = Done (w, g', reads') ->
  exists q', all_tied g' q'.
Proof.
  intros (P & T & h0 & h1 & H0 & H1 & A0 & A1 & D0 & D1) H.
  destruct (play_round_inv _ _ _ _ _ P H)
    as (k0 & k1 & c0 & a0 & c1 & a1 & K0 & K1 & B0 & B1 & _ & _ & W & _
        & P' & G0 & G1).
  rewrite H0 in K0. injection K0 as <-. rewrite H1 in K1. injection K1 as <-.
  destruct q as [|[c d] q]; [by rewrite A0 in B0|].
  apply Forall_cons in T as [Tcd T]. cbn in Tcd.
  rewrite A0 in B0. injection B0 as <- <-.
  rewrite A1 in B1. injection B1 as <- <-.
  rewrite (ties_true c d Tcd) in W. injection W as <-.
  exists (q ++ [(c, d)]). split; [done|]. split.
  - apply Forall_app. split; [done|]. by constructor.
  - eexists _, _. split; [exact G0|]. split; [exact G1|]. cbn.
    rewrite !fmap_app, D0, D1. cbn. repeat split; done.
Qed.

Lemma all_tied_loop (fuel : nat) :
  forall (g : Game) (q : list (Card * Card)) (reads : list read)
         (x : Game * list read),
    all_tied g q -> start_loop fuel g reads <> Done x.
Proof.
  induction fuel as [|fuel IH]; intros g q reads x T; [done|].
  cbn -[play_round keep_playing].
  assert (K : keep_playing g = Done true).
  { destruct T as (_ & _ & h0 & h1 & H0 & H1 & _ & _ & D0 & D1).
    unfold keep_playing. rewrite H0. cbn. rewrite D0. cbn.
    rewrite H1. cbn. by rewrite D1. }
  rewrite K. cbn -[play_round].
  destruct (play_round g reads) as [[[w g1] r1]| | |] eqn:E; cbn; try done.
  destruct (all_tied_round _ _ _ _ _ _ T E) as (q' & T').
  by apply (IH g1 q').
Qed.

(** A deal of 52 cards whose aligned pairs all tie leaves a game in
    which every round to come is a tie, whatever was read for the
    players. *)
Lemma all_tied_deal (shuffled : list Card) (g0 g : Game)
    (reads reads' : list read) :
  players g0 = 2%nat ->
  length shuffled = 52%nat ->
  Forall (fun cd => ties cd.1 cd.2 = true) (aligned shuffled) ->
  create_hands shuffled g0 reads = Done (g, reads') ->
  all_tied g (aligned shuffled).
Proof.
  intros P L T H.
  destruct (create_hands_inv _ _ _ _ _ P H)
    as (l0 & l1 & u0 & u1 & H0 & H1 & Pg & _).
  split; [done|]. split; [done|].
  eexists _, _. split; [exact H0|]. split; [exact H1|].
  unfold aligned. cbn.
  rewrite fst_zip, snd_zip
    by (rewrite length_take, length_drop, L; cbn; lia).
  done.
Qed.

(** C4, as the code has it: dealt from a shuffle of the standard deck
    that sets at least one pair of cards of different value against
    each other, with the two hands bound to different identifiers and
    the players presenting them in turn, [start] returns after finitely
    many rounds; it announces one player, whose pile holds exactly 52
    cards while the other pile holds fewer.  Dealt from a shuffle whose
    26 aligned pairs are all ties, [start] never returns, whatever was
    read at the deal, whatever is read afterwards and however long it
    runs. *)
Theorem start_terminates (shuffled : list Card) (r0 r1 : Z) :
  shuffled ≡ₚ cards standard_deck ->
  r0 <> r1 ->
  (Exists (fun cd => ties cd.1 cd.2 = false) (aligned shuffled) ->
   exists (g : Game) (n : nat) (g' : Game) (w : Z) (h hl : Hand),
     (forall reads,
        create_hands shuffled war_new (Tag r0 :: Tag r1 :: reads)
        = Done (g, reads))
     /\ (forall fuel rest,
           (n < fuel)%nat ->
           start fuel g (alternating n r0 r1 ++ rest)
           = Done (Some w, g', rest))
     /\ (w = 0 \/ w = 1)
     /\ hands g' !! w = Some h /\ hands g' !! (1 - w) = Some hl
     /\ length (dead h) = 52%nat /\ (length (dead hl) < 52)%nat)
  /\ (Forall (fun cd => ties cd.1 cd.2 = true) (aligned shuffled) ->
      forall (g : Game) (reads reads' : list read),
        create_hands shuffled war_new reads = Done (g, reads') ->
        forall (fuel : nat) (rs : list read)
               (x : option Z * Game * list read),
          start fuel g rs <> Done x).
Proof.
  intros Hp Ne.
  assert (L : length shuffled = 52%nat) by (by rewrite Hp).
  split.
  - intros X.
    assert (Hstr : Forall (fun c => is_str (value c) = true) shuffled).
    { rewrite Hp. apply standard_deck_str. }
    destruct (create_hands_run shuffled war_new r0 r1 eq_refl eq_refl)
      as (g & Hg).
    pose proof (seated_deal shuffled war_new g r0 r1 [] eq_refl eq_refl L Ne
                  (Hg [])) as Hs.
    assert (R : Forall (fun cd => resolves cd.1 cd.2 = true)
                  (aligned shuffled)).
    { apply resolves_zip; [by apply Forall_take|by apply Forall_drop]. }
    destruct (war_ends r0 r1 52 0 0 g (aligned shuffled)
                ltac:(lia) ltac:(lia) ltac:(lia) ltac:(lia) Hs R X)
      as (n & g' & q' & m0 & m1 & S' & M & E).
    destruct (announce_seated r0 r1 g' q' m0 m1 S' M)
      as (w & h & hl & A & Hw & Hh & Hhl & D & Dl).
    exists g, n, g', w, h, hl. split; [done|]. split; [|done].
    intros fuel rest Hf. unfold start.
    replace fuel with (n + S (fuel - S n))%nat by lia.
    rewrite E. cbn -[announce]. rewrite A. done.
  - intros T g reads reads' H fuel rs x Hs.
    pose proof (all_tied_deal shuffled war_new g reads reads' eq_refl L T H)
      as Ht.
    unfold start in Hs. inv_bind Hs as y Ey.
    by apply (all_tied_loop fuel g _ rs y Ht).
Qed.

Lemma standard_deck_all_ties :
  Forall (fun cd => ties cd.1 cd.2 = true) (aligned (cards standard_deck)).
Proof. vm_compute. repeat constructor. Qed.

Lemma standard_deck_perm : cards standard_deck ≡ₚ cards standard_deck.
Proof. reflexivity. Qed.

Lemma start_terminates_witness :
  (exists (g : Game) (n : nat) (g' : Game) (w : Z) (h hl : Hand),
     (forall reads,
        create_hands mixed_deck war_new (Tag 11 :: Tag 22 :: reads)
        = Done (g, reads))
     /\ (forall fuel rest,
           (n < fuel)%nat ->
           start fuel g (alternating n 11 22 ++ rest)
           = Done (Some w, g', rest))
     /\ (w = 0 \/ w = 1)
     /\ hands g' !! w = Some h /\ hands g' !! (1 - w) = Some hl
     /\ length (dead h) = 52%nat /\ (length (dead hl) < 52)%nat)
  /\ (forall (fuel : nat) (rs : list read)
             (x : option Z * Game * list read),
        start fuel war_dealt rs <> Done x).
Proof.
  split.
  - apply (proj1 (start_terminates mixed_deck 11 22 mixed_deck_perm
                    ltac:(lia))).
    exact mixed_deck_nontie.
  - apply (proj2 (start_terminates (cards standard_deck) 11 22
                    standard_deck_perm ltac:(lia))
             standard_deck_all_ties war_dealt [Tag 11; Tag 22] []).
    exact war_dealt_eq.
Defined.

Lemma all_tied_war_dealt : all_tied war_dealt (aligned (cards standard_deck)).
Proof.
  split; [reflexivity|]. split.
  - exact standard_deck_all_ties.
  - eexists _, _. repeat split; reflexivity.
Qed.

(** C4 fails on the shuffle that leaves the standard deck in the order
    it was built in: the two halves hold the same ranks in the same
    order, every round is a tie, no pile ever grows, and [start] does
    not return, whatever the players present and however long it
    runs. *)
Lemma start_standard_order_never_returns :
  cards standard_deck ≡ₚ cards standard_deck
  /\ length (cards standard_deck) = 52%nat
  /\ create_hands (cards standard_deck) war_new [Tag 11; Tag 22]
     = Done (war_dealt, [])
  /\ forall (fuel : nat) (reads : list read)
            (x : option Z * Game * list read),
       start fuel war_dealt reads <> Done x.
Proof.
  split; [done|]. split; [reflexivity|]. split; [exact war_dealt_eq|].
  intros fuel reads x. unfold start.
  destruct (start_loop fuel war_dealt reads) as [y| | |] eqn:E; cbn; try done.
  by destruct (all_tied_loop fuel war_dealt _ reads y all_tied_war_dealt).
Qed.

(** * Further properties of the engine *)

(** ** Registering identifiers *)

(** X1: [register(req_hw)] returns normally whatever exception the
    reader raises, [KeyboardInterrupt] apart.  It appends the
    identifiers it reads, in the order read, until the hand has
    [req_hw] of them or a read fails.  A call that returns has read
    exactly the [req_hw - len(rfids)] identifiers the hand was short of
    and left it with [max(len(rfids), req_hw)], or it has read fewer,
    then a read whose exception it swallowed, and left the hand short
    of [req_hw].  Cards and turn flag are untouched.  The call blocks
    when the reader stops before either, and lets a
    [KeyboardInterrupt] through. *)
Theorem register_outcomes (h : Hand) (n : nat) (reads : list read) :
  let k := (n - length (rfids h))%nat in
  match register h n reads with
  | Done (h', reads') =>
      exists ids : list Z,
        rfids h' = rfids h ++ ids
        /\ active h' = active h /\ dead h' = dead h /\ turn h' = turn h
        /\ ((length ids = k
             /\ reads = (Tag <$> ids) ++ reads'
             /\ length (rfids h') = (length (rfids h) `max` n)%nat)
            \/ ((length ids < k)%nat
                /\ (length (rfids h') < n)%nat
                /\ exists e, is_Exception e = true
                     /\ reads = (Tag <$> ids) ++ Fails e :: reads'))
  | Raise e =>
      is_Exception e = false
      /\ exists (ids : list Z) (rest : list read),
           (length ids < k)%nat /\ reads = (Tag <$> ids) ++ Fails e :: rest
  | Starved =>
      exists ids : list Z, (length ids < k)%nat /\ reads = Tag <$> ids
  | OutOfFuel => False
  end.
Proof.
  intros k. unfold register. fold k.
  destruct (register_loop_spec k h reads) as (ids & Hh & Ho).
  destruct (register_loop k h reads) as [[o h1] r1]. cbn in Hh, Ho.
  subst h1. destruct o as [[]|e| |]; [| | |done].
  - destruct Ho as [L ->]. exists ids. cbn. repeat split. left.
    repeat split; [done|]. rewrite length_app. subst k. lia.
  - destruct Ho as [L ->]. destruct (is_Exception e) eqn:Ee.
    + exists ids. cbn. repeat split. right.
      split; [done|]. split; [|by eauto]. rewrite length_app. subst k. lia.
    + split; [done|]. by exists ids, r1.
  - destruct Ho as [L ->]. by exists ids.
Qed.

Lemma fmap_Tag_inj (ids ids' : list Z) :
  Tag <$> ids = Tag <$> ids' -> ids = ids'.
Proof.
  revert ids'. induction ids as [|x ids IH]; intros [|y ids'] E; try done.
  injection E as -> E. f_equal. by apply IH.
Qed.

Lemma tags_not_snoc_Fails (ids ids' : list Z) (e : exn) :
  Tag <$> ids <> (Tag <$> ids') ++ [Fails e].
Proof.
  intros E. apply (f_equal last) in E. rewrite last_snoc, fmap_last in E.
  by destruct (last ids).
Qed.

Lemma register_loop_tags (ids : list Z) :
  forall (m : nat) (h : Hand) (rest : list read),
    register_loop (length ids + m) h ((Tag <$> ids) ++ rest)
    = register_loop m (set_rfids h (rfids h ++ ids)) rest.
Proof.
  induction ids as [|id ids IH]; intros m h rest.
  - cbn. rewrite app_nil_r. by destruct h.
  - cbn. rewrite IH. unfold set_rfids. cbn. by rewrite <- app_assoc.
Qed.

(** X2: registering a hand again for the same number.  When no read of
    the first call failed, the hand is complete and the second call
    reads nothing and changes nothing.  When the first call returned
    after a failed read, the hand is short and the second call reads
    on: it ends as one call would have without the failed read. *)
Theorem register_twice (h h' : Hand) (n : nat)
    (reads reads' more : list read) :
  register h n reads = Done (h', reads') ->
  ((exists ids : list Z, reads = (Tag <$> ids) ++ reads') ->
   register h' n more = Done (h', more))
  /\ (forall (ids : list Z) (e : exn),
        reads = (Tag <$> ids) ++ Fails e :: reads' ->
        register h' n more = register h n ((Tag <$> ids) ++ more)).
Proof.
  intros H. apply register_Done in H as (ids0 & used & -> & -> & U). split.
  - intros (ids & E). apply app_inv_tail in E. subst used.
    destruct U as [[L _]|(_ & e & _ & E)];
      [|by apply tags_not_snoc_Fails in E].
    unfold register. cbn [rfids set_rfids]. rewrite length_app.
    replace (n - _)%nat with 0%nat by lia. done.
  - intros ids e E.
    rewrite (app_assoc _ [Fails e] reads' : _ ++ Fails e :: reads' = _) in E.
    apply app_inv_tail in E. subst used.
    destruct U as [[_ E]|(L & e' & _ & E)];
      [symmetry in E; by apply tags_not_snoc_Fails in E|].
    apply app_inj_tail in E as [E _]. apply fmap_Tag_inj in E as ->.
    unfold register. cbn [rfids set_rfids]. rewrite length_app.
    replace (n - length (rfids h))%nat
      with (length ids0 + (n - (length (rfids h) + length ids0)))%nat by lia.
    by rewrite register_loop_tags.
Qed.

Lemma register_twice_witness :
  register (mkHand [card_K] [] [11] None) 1 [Tag 22; Tag 33]
  = Done (mkHand [card_K] [] [11] None, [Tag 22; Tag 33])
  /\ register (mkHand [card_K] [] [11] None) 2 [Tag 22; Tag 33]
     = register (Hand_init [card_K]) 2 ([Tag 11] ++ [Tag 22; Tag 33]).
Proof.
  split.
  - apply (proj1 (register_twice (Hand_init [card_K]) _ 1
                    [Tag 11; Tag 22] [Tag 22] [Tag 22; Tag 33] eq_refl)).
    by exists [11].
  - apply (proj2 (register_twice (Hand_init [card_K]) _ 2
                    [Tag 11; Fails OSError; Tag 22] [Tag 22]
                    [Tag 22; Tag 33] eq_refl) [11] OSError).
    reflexivity.
Defined.

(** ** Hardware readiness *)

Lemma count_registered_le (hs : list Hand) (c : nat) :
  (count_registered hs c <= c + length hs)%nat
  /\ (count_registered hs c = (c + length hs)%nat
      <-> Forall (fun h => rfids h <> []) hs).
Proof.
  revert c. induction hs as [|h hs IH]; intros c; cbn.
  - split; [lia|]. split; [constructor|lia].
  - destruct (rfids h) as [|r rs] eqn:E.
    + destruct (IH c) as [L _]. split; [lia|]. split; [lia|].
      intros F. apply Forall_cons in F as [F _]. by rewrite E in F.
    + destruct (IH (S c)) as [L I]. split; [lia|].
      rewrite Forall_cons, E, <- I. split; [intros H; split; [done|lia]|].
      intros [_ H]. lia.
Qed.

Lemma is_hw_registered_intro (g : Game) :
  hands g <> ∅ ->
  (forall p h, hands g !! p = Some h -> rfids h <> []) ->
  is_hw_registered g = true.
Proof.
  intros N F. unfold is_hw_registered.
  destruct (decide (hands g = ∅)) as [E|_]; [done|].
  rewrite bool_decide_eq_true.
  destruct (count_registered_le (map_to_list (hands g)).*2 0) as [_ I].
  rewrite length_fmap, length_map_to_list in I. cbn in I. rewrite I.
  rewrite Forall_fmap, Forall_forall. intros [p h] Hp. cbn. apply (F p).
  by apply elem_of_map_to_list.
Qed.

(** X3: [is_hw_registered] is true exactly when the game has at least
    one hand and every hand is bound to at least one identifier; a game
    without hands is not ready. *)
Theorem is_hw_registered_iff (g : Game) :
  is_hw_registered g = true
  <-> hands g <> ∅
      /\ forall p h, hands g !! p = Some h -> rfids h <> [].
Proof.
  unfold is_hw_registered. destruct (decide (hands g = ∅)) as [E|N].
  - split; [done|]. by intros [? _].
  - rewrite bool_decide_eq_true.
    destruct (count_registered_le (map_to_list (hands g)).*2 0) as [_ I].
    rewrite length_fmap, length_map_to_list in I. cbn in I. rewrite I.
    rewrite Forall_fmap, Forall_forall. split.
    + intros F. split; [done|]. intros p h Hp.
      apply (F (p, h)). by apply elem_of_map_to_list.
    + intros [_ F] [p h] Hp. cbn. apply (F p).
      by apply elem_of_map_to_list.
Qed.

(** X4: after a completed deal of a two-player game every hand is
    bound: [is_hw_registered] holds, whatever hands the game had
    before among the players. *)
Theorem is_hw_registered_after_deal (shuffled : list Card) (g g' : Game)
    (reads reads' : list read) :
  players g = 2%nat ->
  (forall p, is_Some (hands g !! p) -> p = 0 \/ p = 1) ->
  create_hands shuffled g reads = Done (g', reads') ->
  is_hw_registered g' = true.
Proof.
  intros P Hdom H.
  destruct (create_hands_inv _ _ _ _ _ P H)
    as (l0 & l1 & u0 & u1 & H0 & H1 & _ & _ & Ne0 & Ne1 & _).
  apply is_hw_registered_intro.
  - intros E. by rewrite E, lookup_empty in H0.
  - assert (Hk : forall p h, hands g' !! p = Some h -> p = 0 \/ p = 1).
    { intros p h Hp. destruct (decide (p = 0)) as [|N0]; [auto|].
      destruct (decide (p = 1)) as [|N1]; [auto|].
      apply Hdom. unfold create_hands in H.
      rewrite P, range_2 in H. cbn in H.
      change (Z.to_nat 0) with 0%nat in H.
      change (Z.to_nat 1) with 1%nat in H. cbn in H.
      inv_bind H as x1 E1. destruct x1 as [hs r]. inv_bind H as x2 E2.
      injection H as <- <-. cbn in Hp.
      rewrite lookup_insert_ne in Hp by done.
      inv_bind E1 as x3 E3. destruct x3 as [ha ra]. inv_bind E1 as x4 E4.
      inv_bind E1 as x5 E5. destruct x5 as [hb rb]. inv_bind E1 as x6 E6.
      injection E1 as <- <-.
      rewrite !lookup_insert_ne in Hp by done. by exists h. }
    intros p h Hp. destruct (Hk p h Hp) as [-> | ->].
    + rewrite H0 in Hp. by injection Hp as <-.
    + rewrite H1 in Hp. by injection Hp as <-.
Qed.

Lemma is_hw_registered_after_deal_witness : is_hw_registered war_dealt = true.
Proof.
  apply (is_hw_registered_after_deal (cards standard_deck) war_new war_dealt
           [Tag 11; Tag 22] []); [reflexivity| |exact war_dealt_eq].
  intros p [h Hp]. cbn in Hp. by rewrite lookup_empty in Hp.
Defined.

(** ** Switching turns, for any number of players *)

Lemma switch_turns_loop_all (n : nat) :
  forall (i : nat) (hs : gmap Z Hand),
    (forall q, (i <= q < i + n)%nat -> is_Some (hs !! Z.of_nat q)) ->
    exists hs',
      switch_turns_loop hs (Z.of_nat <$> seq i n) = Done hs'
      /\ forall p : Z,
           hs' !! p
           = if decide (Z.of_nat i <= p < Z.of_nat (i + n))
             then flip_turn <$> hs !! p else hs !! p.
Proof.
  induction n as [|n IH]; intros i hs Hdom.
  - exists hs. split; [done|]. intros p. case_decide; [lia|done].
  - destruct (Hdom i) as [h Hh]; [lia|].
    destruct (IH (S i) (<[Z.of_nat i := flip_turn h]> hs)) as (hs' & E & L).
    { intros q Hq. rewrite lookup_insert_ne by lia. apply Hdom. lia. }
    exists hs'. split.
    + cbn [seq fmap list_fmap switch_turns_loop]. rewrite Hh. exact E.
    + intros p. rewrite L. destruct (decide (p = Z.of_nat i)) as [->|Ne].
      * rewrite lookup_insert_eq, Hh.
        repeat case_decide; try lia. done.
      * rewrite lookup_insert_ne by done. repeat case_decide; try lia; done.
Qed.

Lemma switch_turns_loop_missing (n : nat) :
  forall (i : nat) (hs : gmap Z Hand),
    (exists q, (i <= q < i + n)%nat /\ hs !! Z.of_nat q = None) ->
    switch_turns_loop hs (Z.of_nat <$> seq i n) = Raise KeyError.
Proof.
  induction n as [|n IH]; intros i hs (q & Hq & Hn); [lia|].
  cbn [seq fmap list_fmap switch_turns_loop].
  destruct (hs !! Z.of_nat i) as [h|] eqn:Hh; [|done]. cbn.
  apply IH. exists q. destruct (decide (q = i)) as [->|Ne]; [congruence|].
  split; [lia|]. rewrite lookup_insert_ne by lia. done.
Qed.

(** X5: for any number of players, [switch_turns] gives every player
    [0 .. players - 1] the negation of its turn flag ([None] counts as
    false) and touches no other hand and no card; it raises [KeyError],
    changing nothing, when one of these players has no hand. *)
Theorem switch_turns_all (g : Game) :
  ((forall p : Z, 0 <= p < Z.of_nat (players g) -> is_Some (hands g !! p)) ->
   exists g',
     switch_turns g = Done g'
     /\ players g' = players g /\ deck g' = deck g
     /\ forall p : Z,
          hands g' !! p
          = if decide (0 <= p < Z.of_nat (players g))
            then flip_turn <$> hands g !! p else hands g !! p)
  /\ ((exists p : Z, 0 <= p < Z.of_nat (players g) /\ hands g !! p = None) ->
      switch_turns g = Raise KeyError).
Proof.
  split.
  - intros Hdom.
    destruct (switch_turns_loop_all (players g) 0 (hands g)) as (hs' & E & L).
    { intros q Hq. apply Hdom. lia. }
    exists (set_hands g hs'). split.
    + unfold switch_turns, range. by rewrite E.
    + split; [done|]. split; [done|]. intros p. cbn. rewrite L.
      repeat case_decide; try lia; done.
  - intros (p & Hp & Hn). unfold switch_turns, range.
    rewrite (switch_turns_loop_missing (players g) 0 (hands g)); [done|].
    exists (Z.to_nat p). split; [lia|]. by rewrite Z2Nat.id by lia.
Qed.

Lemma switch_turns_all_witness :
  (exists g',
     switch_turns game_both = Done g'
     /\ players g' = players game_both /\ deck g' = deck game_both
     /\ forall p : Z,
          hands g' !! p
          = if decide (0 <= p < Z.of_nat (players game_both))
            then flip_turn <$> hands game_both !! p
            else hands game_both !! p)
  /\ switch_turns (set_hands game_both ∅) = Raise KeyError.
Proof.
  split.
  - apply (proj1 (switch_turns_all game_both)).
    intros p Hp. apply game_both_dom. exact Hp.
  - apply (proj2 (switch_turns_all (set_hands game_both ∅))).
    exists 0. split; [cbn; lia|reflexivity].
Defined.

Lemma switch_turns_Done_inv (g g' : Game) :
  switch_turns g = Done g' ->
  players g' = players g
  /\ forall p : Z,
       hands g' !! p
       = if decide (0 <= p < Z.of_nat (players g))
         then flip_turn <$> hands g !! p else hands g !! p.
Proof.
  intros H. unfold switch_turns, range in H. inv_bind H as hs E.
  injection H as <-.
  destruct (switch_turns_loop_all (players g) 0 (hands g)) as (hs' & E' & L).
  { intros q Hq. destruct (hands g !! Z.of_nat q) eqn:Hn; [eauto|].
    rewrite (switch_turns_loop_missing (players g) 0 (hands g)) in E;
      [done|eauto]. }
  rewrite E in E'. injection E' as <-. split; [done|].
  intros p. cbn. rewrite L. repeat case_decide; try lia; done.
Qed.

(** X6: two turn switches in a row give every player back its turn
    status and leave the cards and identifiers of every hand as they
    were; a flag that was [None] comes back as [False]. *)
Theorem switch_turns_twice (g g1 g2 : Game) (p : Z) (h : Hand) :
  switch_turns g = Done g1 ->
  switch_turns g1 = Done g2 ->
  hands g !! p = Some h ->
  exists h2,
    hands g2 !! p = Some h2
    /\ has_turn h2 = has_turn h
    /\ (0 <= p < Z.of_nat (players g) -> turn h2 = Some (has_turn h))
    /\ active h2 = active h /\ dead h2 = dead h /\ rfids h2 = rfids h.
Proof.
  intros E1 E2 Hh.
  destruct (switch_turns_Done_inv g g1 E1) as (P1 & L1).
  destruct (switch_turns_Done_inv g1 g2 E2) as (P2 & L2).
  rewrite P1 in L2. specialize (L1 p). specialize (L2 p).
  rewrite Hh in L1. case_decide as D.
  - rewrite L1 in L2. cbn in L2. eexists. split; [exact L2|].
    destruct h as [a d r [[|]|]]; cbn; repeat split; done.
  - rewrite L1 in L2. exists h. repeat split; try done; lia.
Qed.

Lemma switch_turns_twice_witness :
  exists h2,
    hands (game_after game_both
             (g1 ← switch_turns game_both;
              g2 ← switch_turns g1; Done (tt, g2, []))) !! 1
    = Some h2
    /\ has_turn h2 = false
    /\ (0 <= 1 < Z.of_nat (players game_both) -> turn h2 = Some false)
    /\ active h2 = [card_5] /\ dead h2 = [] /\ rfids h2 = [11; 22].
Proof.
  apply (switch_turns_twice game_both
           (set_hands game_both
              (<[1 := mkHand [card_5] [] [11; 22] (Some true)]>
                 (<[0 := mkHand [card_K] [] [11] (Some false)]>
                    (hands game_both))))
           _ 1 (mkHand [card_5] [] [11; 22] None));
    reflexivity.
Defined.

(** ** Waiting for the player in turn *)

Lemma wait_turn_skips (g : Game) (pre : list Z) (rest : list read) :
  Forall (fun hw => is_turn g hw = Done false) pre ->
  wait_turn g ((Tag <$> pre) ++ rest) = wait_turn g rest.
Proof.
  induction 1 as [|hw pre Hhw _ IH]; [done|]. cbn. by rewrite Hhw.
Qed.

(** X7: identifiers read while it is not their player's turn are
    discarded: a play preceded by such reads is the play without them,
    with the same card, the same resulting game and the same reads left
    over. *)
Theorem get_player_info_skips (g : Game) (pre : list Z) (rest : list read) :
  Forall (fun hw => is_turn g hw = Done false) pre ->
  get_player_info g ((Tag <$> pre) ++ rest) = get_player_info g rest.
Proof.
  intros H. unfold get_player_info. by rewrite (wait_turn_skips g pre rest H).
Qed.

Lemma get_player_info_skips_witness :
  get_player_info war_dealt ((Tag <$> [22; 22]) ++ [Tag 11; Tag 22])
  = get_player_info war_dealt [Tag 11; Tag 22].
Proof.
  apply (get_player_info_skips war_dealt [22; 22] [Tag 11; Tag 22]).
  repeat constructor.
Defined.

Lemma get_player_unbound (g : Game) (hw : Z) :
  (forall p : Z, 0 <= p < Z.of_nat (players g) -> is_Some (hands g !! p)) ->
  (forall p h, hands g !! p = Some h -> hw ∉ rfids h) ->
  get_player g hw = Raise GameFailure.
Proof.
  intros Hdom Hno.
  pose proof (get_player_loop_seq (hands g) hw (players g) 0) as L.
  unfold get_player, range.
  destruct (get_player_loop (hands g) hw (Z.of_nat <$> seq 0 (players g)))
    as [p|[]| |]; try (destruct L; intros q Hq; apply Hdom; lia); [|done].
  destruct L as (k & -> & _ & (h & Hh & Hin) & _);
    [intros q Hq; apply Hdom; lia|].
  destruct (Hno _ _ Hh Hin).
Qed.

(** X8: an identifier bound to no hand is not treated as an
    out-of-turn read: as soon as the wait for the player in turn meets
    one, [get_player_info] raises [GameFailure]. *)
Theorem get_player_info_unbound (g : Game) (pre : list Z) (hw : Z)
    (rest : list read) :
  (forall p : Z, 0 <= p < Z.of_nat (players g) -> is_Some (hands g !! p)) ->
  Forall (fun x => is_turn g x = Done false) pre ->
  (forall p h, hands g !! p = Some h -> hw ∉ rfids h) ->
  get_player_info g ((Tag <$> pre) ++ Tag hw :: rest) = Raise GameFailure.
Proof.
  intros Hdom Hpre Hno. unfold get_player_info.
  rewrite (wait_turn_skips g pre (Tag hw :: rest) Hpre). cbn [wait_turn].
  unfold is_turn. by rewrite (get_player_unbound g hw Hdom Hno).
Qed.

Lemma get_player_info_unbound_witness :
  get_player_info game_both ((Tag <$> [22]) ++ Tag 33 :: [Tag 11])
  = Raise GameFailure.
Proof.
  apply (get_player_info_unbound game_both [22] 33 [Tag 11]).
  - intros p Hp. apply game_both_dom. exact Hp.
  - repeat constructor.
  - intros p h. simpl.
    destruct (decide (p = 0)) as [->|N0].
    { rewrite lookup_insert_eq. intros [= <-] Hin.
      apply list_elem_of_In in Hin. simpl in Hin. lia. }
    destruct (decide (p = 1)) as [->|N1].
    { rewrite lookup_insert_ne, lookup_insert_eq by done. intros [= <-] Hin.
      apply list_elem_of_In in Hin. simpl in Hin. lia. }
    rewrite !lookup_insert_ne, lookup_empty by done. done.
Defined.

(** No read is accepted while it is the turn of player 1 and all its
    identifiers are bound to player 0 as well. *)
Lemma wait_turn_shadowed (g : Game) (h0 h1 : Hand) (reads : list read)
    (x : Z * list read) :
  players g = 2%nat ->
  hands g !! 0 = Some h0 ->
  hands g !! 1 = Some h1 ->
  has_turn h0 = false ->
  (forall r, r ∈ rfids h1 -> r ∈ rfids h0) ->
  wait_turn g reads <> Done x.
Proof.
  intros P H0 H1 T Sub H. destruct x as [hw rest].
  apply wait_turn_Done in H. unfold is_turn in H.
  inv_bind H as p E. inv_bind H as h E'. inv_raise E'.
  injection H as Ht. apply bool_decide_eq_true in Ht.
  unfold get_player in E. rewrite P, range_2 in E. cbn in E.
  rewrite H0 in E. cbn in E. case_bool_decide as Hin0.
  - injection E as <-. rewrite H0 in E'. injection E' as <-.
    unfold has_turn in T. rewrite bool_decide_eq_false in T. done.
  - rewrite H1 in E. cbn in E. case_bool_decide as Hin1; [|done].
    by apply Hin0, Sub.
Qed.

(** X9: when every identifier of player 1 is also bound to player 0,
    player 1 can never play: while it is its turn no sequence of reads
    makes [get_player_info] return. *)
Theorem shadowed_player_never_plays (g : Game) (h0 h1 : Hand)
    (reads : list read) (x : play * Game * list read) :
  players g = 2%nat ->
  hands g !! 0 = Some h0 ->
  hands g !! 1 = Some h1 ->
  has_turn h0 = false ->
  (forall r, r ∈ rfids h1 -> r ∈ rfids h0) ->
  get_player_info g reads <> Done x.
Proof.
  intros P H0 H1 T Sub H. unfold get_player_info in H.
  inv_bind H as y E.
  by apply (wait_turn_shadowed g h0 h1 reads y P H0 H1 T Sub).
Qed.

Lemma shadowed_player_never_plays_witness :
  get_player_info game_same [Tag 11; Tag 11; Tag 11]
  <> Done ([(1, card_5)], game_same, []).
Proof.
  apply (shadowed_player_never_plays game_same
           (mkHand [card_K] [] [11] (Some false))
           (mkHand [card_5] [] [11] (Some true)));
    [reflexivity | reflexivity | reflexivity | reflexivity | ].
  intros r Hr. exact Hr.
Defined.

(** X10: a game of War in which the same identifier was read for both
    players at the deal never completes a round, whatever is read
    afterwards. *)
Theorem same_tag_no_round (shuffled : list Card) (g0 g : Game) (r : Z)
    (rest reads : list read) (x : Z * Game * list read) :
  players g0 = 2%nat ->
  req_hw g0 = 2%nat ->
  create_hands shuffled g0 (Tag r :: Tag r :: rest) = Done (g, rest) ->
  play_round g reads <> Done x.
Proof.
  intros P Q H Hr.
  destruct (create_hands_inv_one _ _ _ _ _ P ltac:(by rewrite Q) H)
    as (x0 & x1 & [= <- <-] & H0 & H1 & Pg & _).
  unfold play_round in Hr. rewrite Pg, range_2 in Hr.
  cbn [collect_plays] in Hr.
  inv_bind Hr as y E. destruct y as [[cr g2] r2].
  inv_bind E as y1 E1. destruct y1 as [[cur1 g1] r1].
  inv_bind E as y2 E2.
  destruct (get_player_info_inv _ _ _ _ _ Pg E1)
    as (k0 & k1 & c & a & K0 & K1 & P1 & Hcase).
  rewrite H0 in K0. injection K0 as <-. rewrite H1 in K1. injection K1 as <-.
  destruct Hcase as [(_ & _ & _ & G0 & G1)|(_ & _ & T1 & _)]; [|done].
  unfold get_player_info in E2. inv_bind E2 as z Ez.
  refine (wait_turn_shadowed g1 _ _ r1 z P1 G0 G1 _ _ Ez);
    [reflexivity|done].
Qed.

Lemma war_same_eq :
  create_hands (cards standard_deck) war_new [Tag 11; Tag 11]
  = Done (war_same, []).
Proof. vm_compute. reflexivity. Qed.

Lemma same_tag_no_round_witness :
  play_round war_same [Tag 11; Tag 11; Tag 11; Tag 11]
  <> Done (-1, war_same, []).
Proof.
  apply (same_tag_no_round (cards standard_deck) war_new war_same 11 []);
    [reflexivity | reflexivity | exact war_same_eq].
Defined.

(** X11: a completed play is always the front card of the hand whose
    turn it was: [get_player_info] returns [{p: c}] for the player [p]
    in turn and the first card [c] of its queue, takes that card and
    nothing else out of the queue, gives the turn to the other player,
    and leaves every pile and every identifier as it was. *)
Theorem get_player_info_plays_front (g : Game) (reads : list read)
    (current : play) (g' : Game) (reads' : list read) :
  players g = 2%nat ->
  get_player_info g reads = Done (current, g', reads') ->
  exists (p : Z) (h o : Hand) (c : Card) (rest : list Card),
    (p = 0 \/ p = 1)
    /\ hands g !! p = Some h /\ hands g !! (1 - p) = Some o
    /\ has_turn h = true
    /\ active h = c :: rest
    /\ current = [(p, c)]
    /\ hands g' !! p
       = Some (mkHand rest (dead h) (rfids h) (Some false))
    /\ hands g' !! (1 - p)
       = Some (mkHand (active o) (dead o) (rfids o)
                 (Some (negb (has_turn o)))).
Proof.
  intros P H.
  destruct (get_player_info_inv _ _ _ _ _ P H)
    as (h0 & h1 & c & rest & H0 & H1 & _
        & [(-> & A & T & G0 & G1)|(-> & A & T & G0 & G1)]).
  - exists 0, h0, h1, c, rest. change (1 - 0) with 1.
    repeat split; try done; [auto| |].
    + rewrite G0. f_equal. destruct h0 as [a d r [[|]|]]; cbn in *; done.
    + rewrite G1. f_equal. destruct h1 as [a d r [[|]|]]; cbn; done.
  - exists 1, h1, h0, c, rest. change (1 - 1) with 0.
    repeat split; try done; [auto| |].
    + rewrite G1. f_equal. destruct h1 as [a d r [[|]|]]; cbn in *; done.
    + rewrite G0. f_equal. destruct h0 as [a d r [[|]|]]; cbn; done.
Qed.

Lemma get_player_info_plays_front_witness :
  exists (p : Z) (h o : Hand) (c : Card) (rest : list Card),
    (p = 0 \/ p = 1)
    /\ hands game_both !! p = Some h /\ hands game_both !! (1 - p) = Some o
    /\ has_turn h = true
    /\ active h = c :: rest
    /\ [(0, card_K)] = [(p, c)]
    /\ hands (game_after game_both (get_player_info game_both [Tag 11])) !! p
       = Some (mkHand rest (dead h) (rfids h) (Some false))
    /\ hands (game_after game_both (get_player_info game_both [Tag 11]))
       !! (1 - p)
       = Some (mkHand (active o) (dead o) (rfids o)
                 (Some (negb (has_turn o)))).
Proof.
  apply (get_player_info_plays_front game_both [Tag 11] [(0, card_K)]
           (game_after game_both (get_player_info game_both [Tag 11])) []);
    reflexivity.
Defined.

(** ** The deal, in general *)

(** X12: a completed deal of a two-player game hands out the whole
    shuffled deck and nothing else: the queue of player 0 followed by
    the queue of player 1 is the shuffled deck, player 1 holding the
    extra card of an odd deck; the deck keeps the shuffled order, both
    piles are empty, player 0 has the turn and player 1's flag is still
    [None].  When the shuffle is a permutation, so is the deal. *)
Theorem create_hands_partition (shuffled : list Card) (g g' : Game)
    (reads reads' : list read) :
  players g = 2%nat ->
  create_hands shuffled g reads = Done (g', reads') ->
  exists h0 h1,
    hands g' !! 0 = Some h0 /\ hands g' !! 1 = Some h1
    /\ active h0 ++ active h1 = shuffled
    /\ (length (active h0) <= length (active h1) <= length (active h0) + 1)%nat
    /\ cards (deck g') = shuffled
    /\ dead h0 = [] /\ dead h1 = []
    /\ turn h0 = Some true /\ turn h1 = None
    /\ (shuffled ≡ₚ cards (deck g) ->
        active h0 ++ active h1 ≡ₚ cards (deck g)).
Proof.
  intros P H.
  destruct (create_hands_inv _ _ _ _ _ P H)
    as (l0 & l1 & u0 & u1 & H0 & H1 & _ & D & _).
  pose proof (Nat.Div0.mul_div_le (length shuffled) 2) as L1.
  pose proof (Nat.mul_succ_div_gt (length shuffled) 2 ltac:(lia)) as L2.
  remember (length shuffled / 2)%nat as k eqn:Ek. clear Ek.
  eexists _, _. split; [exact H0|]. split; [exact H1|]. cbn [active dead turn].
  rewrite take_drop, length_take, length_drop.
  repeat split; try done; lia.
Qed.

Lemma create_hands_partition_witness :
  exists h0 h1,
    hands war_mixed !! 0 = Some h0 /\ hands war_mixed !! 1 = Some h1
    /\ active h0 ++ active h1 = mixed_deck
    /\ (length (active h0) <= length (active h1) <= length (active h0) + 1)%nat
    /\ cards (deck war_mixed) = mixed_deck
    /\ dead h0 = [] /\ dead h1 = []
    /\ turn h0 = Some true /\ turn h1 = None
    /\ (mixed_deck ≡ₚ cards (deck war_new) ->
        active h0 ++ active h1 ≡ₚ cards (deck war_new)).
Proof.
  apply (create_hands_partition mixed_deck war_new war_mixed
           [Tag 11; Tag 22] []);
    [reflexivity | exact war_mixed_eq].
Defined.

Lemma register_used_length (n : nat) (ids : list Z) (used : list read) :
  register_used n ids used ->
  (length ids <= length used <= n)%nat.
Proof.
  intros [[L ->]|(L & e & _ & ->)].
  - rewrite length_fmap. lia.
  - rewrite length_app, length_fmap. cbn. lia.
Qed.

(** What the loop of [create_hands] has done when it completes: each
    player in its range has a hand with at least one identifier and at
    most [req], the other hands are as they were, and it has used at
    least one read per player and at most [req]. *)
Lemma deal_loop_Done (deck_halves : list (list Card)) (req : nat) (n : nat) :
  forall (i : nat) (hs hs' : gmap Z Hand) (reads reads' : list read),
    deal_loop deck_halves req hs (Z.of_nat <$> seq i n) reads
    = Done (hs', reads') ->
    (n = 0%nat \/ (i + n <= length deck_halves)%nat /\ (0 < req)%nat)
    /\ (exists used,
          reads = used ++ reads' /\ (n <= length used <= n * req)%nat)
    /\ (forall q, (i <= q < i + n)%nat ->
          exists h, hs' !! Z.of_nat q = Some h
            /\ (1 <= length (rfids h) <= req)%nat)
    /\ (forall p : Z,
          (forall q, (i <= q < i + n)%nat -> p <> Z.of_nat q) ->
          hs' !! p = hs !! p).
Proof.
  induction n as [|n IH]; intros i hs hs' reads reads' H.
  - injection H as <- <-. split; [by left|].
    split; [exists []; cbn; split; [done|lia]|].
    split; [intros q Hq; lia|done].
  - cbn [seq fmap list_fmap] in H.
    apply deal_loop_step in H
      as (half & ids & used & rest & Eh & N & U & -> & H).
    rewrite Nat2Z.id in Eh. apply lookup_lt_Some in Eh.
    pose proof (register_used_length _ _ _ U) as Lu.
    assert (Li : (1 <= length ids)%nat) by (destruct ids; [done|cbn; lia]).
    apply IH in H as (Hn & (used' & -> & Lu') & Hq & Hf).
    split.
    { right. split; [destruct Hn as [-> | [Hn _]]; lia|lia]. }
    split.
    { exists (used ++ used'). rewrite <- app_assoc. split; [done|].
      rewrite length_app. cbn [Nat.mul]. lia. }
    split.
    + intros q Hq'. destruct (decide (q = i)) as [->|Ne].
      * rewrite Hf by (intros q' Hq''; lia). rewrite lookup_insert_eq.
        eexists. split; [done|]. cbn. lia.
      * apply Hq. lia.
    + intros p Hp. rewrite Hf by (intros q Hq'; apply Hp; lia).
      rewrite lookup_insert_ne; [done|]. intros <-. by apply (Hp i); [lia|].
Qed.

(** X13: [create_hands] completes only for one or two players (the
    deck is cut in two halves, whatever the player count), only when
    [req_hw] is at least the number of players, and only with at least
    one identifier read for every player: each player then has a hand
    bound to between 1 and [req_hw // players] identifiers, and the
    deal has used at least one read per player and at most
    [req_hw // players] per player.  A hand can be left short of
    [req_hw // players]: a read that fails ends its registration, and
    the deal goes on when the hand has an identifier by then. *)
Theorem create_hands_completes_only (shuffled : list Card) (g g' : Game)
    (reads reads' : list read) :
  create_hands shuffled g reads = Done (g', reads') ->
  (players g = 1%nat \/ players g = 2%nat)
  /\ (players g <= req_hw g)%nat
  /\ (exists used,
        reads = used ++ reads'
        /\ (players g <= length used
            <= players g * (req_hw g / players g))%nat)
  /\ (forall p : Z,
        0 <= p < Z.of_nat (players g) ->
        exists h, hands g' !! p = Some h
          /\ (1 <= length (rfids h) <= req_hw g / players g)%nat).
Proof.
  intros H. unfold create_hands in H.
  destruct (Nat.eqb_spec (players g) 0) as [E|N]; [done|].
  inv_bind H as y E1. destruct y as [hs r]. unfold range in E1.
  inv_bind H as h0 E0. inv_raise E0. injection H as <- <-.
  apply deal_loop_Done in E1 as ([E1 | [Hn Hreq]] & Hu & Hq & _); [done|].
  cbn in Hn. split; [lia|]. split.
  { destruct (Nat.le_gt_cases (players g) (req_hw g)) as [|Lt]; [done|].
    rewrite Nat.div_small in Hreq by done. lia. }
  split; [done|].
  intros p Hp. destruct (Hq (Z.to_nat p)) as (h & Hh & L); [lia|].
  rewrite Z2Nat.id in Hh by lia. cbn.
  destruct (decide (p = 0)) as [->|Ne].
  - rewrite lookup_insert_eq. rewrite E0 in Hh. injection Hh as <-.
    by eexists.
  - rewrite lookup_insert_ne by done. by exists h.
Qed.

Lemma dealt_short_eq :
  create_hands (cards standard_deck) game_two_each
    [Tag 11; Fails OSError; Tag 22; Tag 33]
  = Done (dealt_short, []).
Proof. vm_compute. reflexivity. Qed.

Lemma create_hands_completes_only_witness :
  (players game_two_each = 1%nat \/ players game_two_each = 2%nat)
  /\ (players game_two_each <= req_hw game_two_each)%nat
  /\ (exists used,
        [Tag 11; Fails OSError; Tag 22; Tag 33] = used ++ []
        /\ (players game_two_each <= length used
            <= players game_two_each
               * (req_hw game_two_each / players game_two_each))%nat)
  /\ (forall p : Z,
        0 <= p < Z.of_nat (players game_two_each) ->
        exists h, hands dealt_short !! p = Some h
          /\ (1 <= length (rfids h)
              <= req_hw game_two_each / players game_two_each)%nat).
Proof.
  apply (create_hands_completes_only (cards standard_deck) game_two_each
           dealt_short [Tag 11; Fails OSError; Tag 22; Tag 33] []).
  exact dealt_short_eq.
Defined.

(** X14: a game of War binds one identifier to each player, the first
    read to player 0 and the second to player 1, and reads no more
    ([req_hw] is 2 for the two players together): a deal that completes
    has met no failed read. *)
Theorem war_binds_one_each (d : deck_dict) (g0 : Game) (shuffled : list Card)
    (g : Game) (reads reads' : list read) :
  War_init d = Done g0 ->
  create_hands shuffled g0 reads = Done (g, reads') ->
  exists r0 r1 h0 h1,
    reads = Tag r0 :: Tag r1 :: reads'
    /\ hands g !! 0 = Some h0 /\ hands g !! 1 = Some h1
    /\ rfids h0 = [r0] /\ rfids h1 = [r1].
Proof.
  intros W H. unfold War_init, Game_init in W. inv_bind W as dk E.
  injection W as <-.
  destruct (create_hands_inv_one shuffled (mkGame dk [] ∅ 2 2) g reads reads'
              eq_refl eq_refl H) as (r0 & r1 & -> & H0 & H1 & _).
  exists r0, r1. eexists _, _. split; [done|].
  split; [exact H0|]. split; [exact H1|]. done.
Qed.

Lemma war_binds_one_each_witness :
  exists r0 r1 h0 h1,
    [Tag 11; Tag 22] = Tag r0 :: Tag r1 :: []
    /\ hands war_dealt !! 0 = Some h0 /\ hands war_dealt !! 1 = Some h1
    /\ rfids h0 = [r0] /\ rfids h1 = [r1].
Proof.
  apply (war_binds_one_each standard_dict war_new (cards standard_deck)
           war_dealt [Tag 11; Tag 22] []);
    [exact War_init_standard | exact war_dealt_eq].
Defined.

(** ** What [distribute] can and cannot do *)

Lemma grows_refl (h : Hand) : grows h h.
Proof. by repeat split. Qed.

Lemma hands_grow_refl (hs : gmap Z Hand) : hands_grow hs hs.
Proof.
  intros p. destruct (hs !! p); constructor. apply grows_refl.
Qed.

Lemma hands_grow_trans (a b c : gmap Z Hand) :
  hands_grow a b -> hands_grow b c -> hands_grow a c.
Proof.
  intros Hab Hbc p. specialize (Hab p). specialize (Hbc p).
  destruct Hab as [x y (T1 & R1 & A1 & D1)|]; inversion Hbc as [y' z (T2 & R2 & A2 & D2)|];
    subst; constructor.
  repeat split; [congruence|congruence|by etrans|by etrans].
Qed.

Lemma hands_grow_insert (hs : gmap Z Hand) (p : Z) (h h' : Hand) :
  hs !! p = Some h -> grows h h' -> hands_grow hs (<[p := h']> hs).
Proof.
  intros Hp G q. destruct (decide (p = q)) as [<-|Ne].
  - rewrite lookup_insert_eq, Hp. by constructor.
  - rewrite lookup_insert_ne by done. apply hands_grow_refl.
Qed.

Lemma dead_append_grows (hs hs' : gmap Z Hand) (p : Z) (c : Card) :
  dead_append hs p c = Done hs' -> hands_grow hs hs'.
Proof.
  unfold dead_append. intros H. inv_bind H as h E. inv_raise E.
  injection H as <-. apply (hands_grow_insert hs p h); [done|].
  repeat split; [done|]. by apply prefix_app_r.
Qed.

Lemma active_append_grows (hs hs' : gmap Z Hand) (p : Z) (c : Card) :
  active_append hs p c = Done hs' -> hands_grow hs hs'.
Proof.
  unfold active_append. intros H. inv_bind H as h E. inv_raise E.
  injection H as <-. apply (hands_grow_insert hs p h); [done|].
  repeat split; [|done]. by apply prefix_app_r.
Qed.

(** X15: whatever winner and round it is given, a completed
    [distribute] only appends cards: it creates and removes no hand,
    keeps every turn flag and every identifier, takes no card out of a
    queue or a pile, and leaves the deck, the graveyard and the player
    count alone.  A winner other than -1 that has no hand makes it
    raise [KeyError]. *)
Theorem distribute_only_appends (g : Game) (winner : Z)
    (current_round : list play) :
  (forall g', distribute g winner current_round = Done g' ->
     hands_grow (hands g) (hands g')
     /\ players g' = players g /\ deck g' = deck g
     /\ graveyard g' = graveyard g)
  /\ (winner <> -1 -> hands g !! winner = None ->
      distribute g winner current_round = Raise KeyError).
Proof.
  split.
  - intros g' H. unfold distribute in H. inv_bind H as hs1 E1.
    assert (G1 : hands_grow (hands g) hs1).
    { case_bool_decide; [|injection E1 as <-; apply hands_grow_refl].
      inv_bind E1 as x1 F1. inv_bind E1 as c0 F2. inv_bind E1 as hs F3.
      inv_bind E1 as x2 F4. inv_bind E1 as c1 F5.
      eapply hands_grow_trans; [by eapply dead_append_grows|].
      by eapply dead_append_grows. }
    inv_bind H as x1 F1. inv_bind H as c0 F2. inv_bind H as hs2 F3.
    inv_bind H as x2 F4. inv_bind H as c1 F5. inv_bind H as hs3 F6.
    injection H as <-. cbn. repeat split.
    eapply hands_grow_trans; [exact G1|].
    eapply hands_grow_trans; [by eapply active_append_grows|].
    by eapply active_append_grows.
  - intros Hw Hn. unfold distribute.
    rewrite bool_decide_eq_true_2 by done. by rewrite Hn.
Qed.

Lemma distribute_only_appends_witness :
  (forall g', distribute game_mid 1 (round_cards card_K card_5) = Done g' ->
     hands_grow (hands game_mid) (hands g')
     /\ players g' = players game_mid /\ deck g' = deck game_mid
     /\ graveyard g' = graveyard game_mid)
  /\ distribute game_mid 2 (round_cards card_K card_5) = Raise KeyError.
Proof.
  split.
  - apply (proj1 (distribute_only_appends game_mid 1
                    (round_cards card_K card_5))).
  - apply (proj2 (distribute_only_appends game_mid 2
                    (round_cards card_K card_5))); [lia|reflexivity].
Defined.

(** ** What [start] has done when it returns *)

Lemma start_loop_Done (fuel : nat) :
  forall (g : Game) (reads : list read) (g' : Game) (reads' : list read),
    players g = 2%nat ->
    start_loop fuel g reads = Done (g', reads') ->
    players g' = 2%nat /\ keep_playing g' = Done false
    /\ exists used, reads = used ++ reads'.
Proof.
  induction fuel as [|fuel IH]; intros g reads g' reads' P H; [done|].
  cbn -[play_round keep_playing] in H. inv_bind H as go E.
  destruct go.
  - inv_bind H as x E1. destruct x as [[w g1] r1].
    pose proof (play_round_inv _ _ _ _ _ P E1)
      as (? & ? & ? & ? & ? & ? & _ & _ & _ & _ & _ & _ & _ & _ & P1 & _).
    destruct (IH g1 r1 g' reads' P1 H) as (P' & K & used & ->).
    split; [done|]. split; [done|].
    unfold play_round in E1. rewrite P, range_2 in E1.
    cbn [collect_plays] in E1.
    inv_bind E1 as y F. destruct y as [[cr g2] r2].
    inv_bind F as y1 F1. destruct y1 as [[cur1 ga] ra].
    inv_bind F as y2 F2. destruct y2 as [[cur2 gb] rb].
    injection F as <- <- <-.
    inv_bind E1 as w' F3. inv_bind E1 as g3 F4.
    injection E1 as Ew Eg Er. subst w' g3 rb.
    assert (W : forall g reads cur g' reads',
              get_player_info g reads = Done (cur, g', reads') ->
              exists used, reads = used ++ reads').
    { clear. intros g reads cur g' reads' H. unfold get_player_info in H.
      inv_bind H as y E. destruct y as [hw r].
      inv_bind H as p E1. inv_bind H as h E2.
      destruct (active h); [done|]. inv_bind H as g2 E3.
      injection H as <- <- <-.
      clear -E. revert E. induction reads as [|[x|e] reads IH]; [done| |done].
      cbn. intros E. inv_bind E as t Et. destruct t.
      - injection E as <- <-. by exists [Tag x].
      - destruct (IH E) as (used & ->). by exists (Tag x :: used). }
    destruct (W _ _ _ _ _ F1) as (u1 & ->).
    destruct (W _ _ _ _ _ F2) as (u2 & ->).
    exists (u1 ++ u2 ++ used). by rewrite <- !app_assoc.
  - injection H as <- <-. split; [done|]. split; [done|]. by exists [].
Qed.

(** X16: whenever [start] returns from a two-player game, whatever was
    read, it announces a player, that player's pile holds at least 52
    cards, and it is the first such player: player 1 is announced only
    when player 0's pile holds fewer.  The reads left over are a suffix
    of the reads given. *)
Theorem start_announces_full_pile (fuel : nat) (g : Game) (reads : list read)
    (w : option Z) (g' : Game) (reads' : list read) :
  players g = 2%nat ->
  start fuel g reads = Done (w, g', reads') ->
  exists (p : Z) (h : Hand),
    w = Some p /\ (p = 0 \/ p = 1)
    /\ hands g' !! p = Some h /\ (52 <= length (dead h))%nat
    /\ (p = 1 -> exists h0,
          hands g' !! 0 = Some h0 /\ (length (dead h0) < 52)%nat)
    /\ exists used, reads = used ++ reads'.
Proof.
  intros P H. unfold start in H. inv_bind H as x E. destruct x as [g1 r1].
  inv_bind H as w' A. injection H as -> -> ->.
  destruct (start_loop_Done fuel g reads g' reads' P E) as (P' & K & U).
  rewrite P', range_2 in A. cbn -[Nat.leb] in A.
  unfold keep_playing in K. inv_bind K as h0 K0. inv_raise K0.
  rewrite K0 in A. cbn -[Nat.leb] in A.
  destruct (Nat.ltb_spec (length (dead h0)) 52) as [L0|L0].
  - destruct (Nat.leb_spec 52 (length (dead h0))) as [|_]; [lia|].
    inv_bind K as h1 K1. inv_raise K1. rewrite K1 in A. cbn -[Nat.leb] in A.
    injection K as K.
    destruct (Nat.ltb_spec (length (dead h1)) 52) as [|L1]; [done|].
    destruct (Nat.leb_spec 52 (length (dead h1))) as [_|]; [|lia].
    injection A as <-. exists 1, h1.
    split; [done|]. split; [auto|]. split; [done|]. split; [done|].
    split; [|done]. intros _. by exists h0.
  - destruct (Nat.leb_spec 52 (length (dead h0))) as [_|]; [|lia].
    injection A as <-. exists 0, h0.
    split; [done|]. split; [auto|]. split; [done|]. split; [done|].
    split; [|done]. intros [=].
Qed.

Lemma war_mixed_won_eq :
  start 100 war_mixed (alternating 200 11 22)
  = Done (Some 1, war_mixed_won, alternating 146 11 22).
Proof. vm_compute. reflexivity. Qed.

Lemma start_announces_full_pile_witness :
  exists (p : Z) (h : Hand),
    Some 1 = Some p /\ (p = 0 \/ p = 1)
    /\ hands war_mixed_won !! p = Some h /\ (52 <= length (dead h))%nat
    /\ (p = 1 -> exists h0,
          hands war_mixed_won !! 0 = Some h0 /\ (length (dead h0) < 52)%nat)
    /\ exists used, alternating 200 11 22 = used ++ alternating 146 11 22.
Proof.
  apply (start_announces_full_pile 100 war_mixed (alternating 200 11 22)
           (Some 1) war_mixed_won (alternating 146 11 22));
    [reflexivity | exact war_mixed_won_eq].
Defined.

(** ** The deck as built *)

Lemma row_values (suit color : string) (vs : list pyval) :
  (fun s : pyval * string * string => s.1.1)
    <$> (vs ≫= fun val => [(val, suit, color)])
  = vs.
Proof.
  induction vs as [|v vs IH]; [done|]. rewrite bind_cons, fmap_app, IH. done.
Qed.

Lemma row_suits (suit color : string) (vs : list pyval) :
  (fun s : pyval * string * string => s.1.2)
    <$> (vs ≫= fun val => [(val, suit, color)])
  = replicate (length vs) suit.
Proof.
  induction vs as [|v vs IH]; [done|]. rewrite bind_cons, fmap_app, IH. done.
Qed.

Lemma shapes_values (ss : list (list (string * list string))) (vs : list pyval) :
  (fun s : pyval * string * string => s.1.1) <$> create_deck_shapes ss vs
  = concat (replicate (suit_count ss) vs).
Proof.
  unfold create_deck_shapes, suit_count.
  induction ss as [|colors ss IH]; [done|].
  rewrite bind_cons, fmap_app, IH, fmap_cons. simpl sum_list.
  rewrite replicate_add, concat_app. f_equal. clear IH.
  induction colors as [|[color suits] colors IHc]; [done|].
  rewrite bind_cons, fmap_app, IHc, fmap_cons. simpl sum_list.
  rewrite replicate_add, concat_app. f_equal. cbn [snd]. clear IHc.
  induction suits as [|suit suits IHs]; [done|].
  rewrite bind_cons, fmap_app, IHs, row_values. done.
Qed.

Lemma shapes_suits (ss : list (list (string * list string))) (vs : list pyval) :
  (fun s : pyval * string * string => s.1.2) <$> create_deck_shapes ss vs
  = suit_names ss ≫= fun s => replicate (length vs) s.
Proof.
  unfold create_deck_shapes, suit_names.
  induction ss as [|colors ss IH]; [done|].
  rewrite !bind_cons, fmap_app, IH, bind_app. f_equal. clear IH.
  induction colors as [|[color suits] colors IHc]; [done|].
  rewrite !bind_cons, fmap_app, IHc, bind_app. f_equal. clear IHc.
  induction suits as [|suit suits IHs]; [done|].
  rewrite !bind_cons, fmap_app, IHs, row_suits. done.
Qed.

Lemma create_deck_values (ss : list (list (string * list string)))
    (vs : list pyval) :
  value <$> create_deck ss vs = concat (replicate (suit_count ss) vs).
Proof.
  unfold create_deck. rewrite fmap_imap.
  rewrite <- shapes_values, <- imap_const. apply imap_ext.
  by intros i [[v s] c] _.
Qed.

(** X17: the deck is built suit by suit, in the order the description
    lists the suits, and within a suit in the order of [value_list]:
    its values are [value_list] repeated once per suit name, and its
    suits are each suit name repeated once per value. *)
Theorem create_deck_order (ss : list (list (string * list string)))
    (vs : list pyval) :
  value <$> create_deck ss vs = concat (replicate (suit_count ss) vs)
  /\ suit <$> create_deck ss vs
     = suit_names ss ≫= fun s => replicate (length vs) s.
Proof.
  split; [apply create_deck_values|].
  unfold create_deck. rewrite fmap_imap.
  rewrite <- shapes_suits, <- imap_const. apply imap_ext.
  by intros i [[v s] c] _.
Qed.

(** ** Decks that never end a game *)

Lemma ltb_irrefl (s : string) : String.ltb s s = false.
Proof.
  unfold String.ltb. pose proof (String.compare_antisym s s) as H.
  destruct (String.compare s s); cbn in H; done.
Qed.

Lemma ties_same_value (c d : Card) : value c = value d -> ties c d = true.
Proof.
  intros E. unfold ties, check_winner, round_cards. cbn. rewrite E.
  destruct (translate_A_K (value d)) as [z|s]; cbn.
  - rewrite Z.ltb_irrefl. cbn. by rewrite Z.eqb_refl.
  - rewrite ltb_irrefl. cbn. by rewrite String.eqb_refl.
Qed.

Lemma ties_zip (l k : list Card) :
  value <$> l = value <$> k ->
  Forall (fun cd => ties cd.1 cd.2 = true) (zip l k).
Proof.
  revert k. induction l as [|c l IH]; intros [|d k] E; try done.
  injection E as Ev E. cbn. constructor; [by apply ties_same_value|].
  by apply IH.
Qed.

(** X18: a game of War dealt from an unshuffled deck of an even number
    of suits never ends: the two halves of the deck run through the
    same values in the same order, every round is a tie, and [start]
    does not return, whatever is read and however long it runs. *)
Theorem unshuffled_deal_never_ends (d : deck_dict)
    (ss : list (list (string * list string))) (m : nat) (g0 g : Game)
    (reads reads' : list read) (fuel : nat) (rs : list read)
    (x : option Z * Game * list read) :
  War_init d = Done g0 ->
  dd_suits d = Some ss ->
  suit_count ss = (2 * m)%nat ->
  create_hands (cards (deck g0)) g0 reads = Done (g, reads') ->
  start fuel g rs <> Done x.
Proof.
  intros W Hss Hm H.
  unfold War_init, Game_init in W. inv_bind W as dk E. injection W as <-.
  unfold CardDeck_init in E. rewrite Hss in E.
  inv_bind E as nm En. inv_bind E as sz Es. cbn in E. inv_bind E as vs Ev.
  injection E as <-.
  set (dk0 := mkCardDeck nm sz ss vs (create_deck ss vs)) in *.
  change (cards (deck (mkGame dk0 [] ∅ 2 2))) with (create_deck ss vs) in H.
  assert (P : players (mkGame dk0 [] ∅ 2 2) = 2%nat) by reflexivity.
  destruct (create_hands_inv _ _ g reads reads' P H)
    as (l0 & l1 & u0 & u1 & H0 & H1 & Pg & _).
  pose proof (create_deck_values ss vs) as V. rewrite Hm in V.
  replace (2 * m)%nat with (m + m)%nat in V by lia.
  rewrite replicate_add, concat_app in V.
  set (cs := create_deck ss vs) in *.
  set (L := concat (replicate m vs)) in *.
  assert (Hlen : length cs = (length L + length L)%nat).
  { rewrite <- (length_fmap value cs), V, length_app. done. }
  assert (Hk : (length cs / 2)%nat = length L).
  { rewrite Hlen. replace (length L + length L)%nat with (length L * 2)%nat
      by lia. by rewrite Nat.div_mul. }
  rewrite Hk in H0, H1.
  assert (T : all_tied g (zip (take (length L) cs) (drop (length L) cs))).
  { split; [done|]. split.
    - apply ties_zip. rewrite fmap_take, fmap_drop, V.
      by rewrite take_app_length, drop_app_length.
    - eexists _, _. split; [exact H0|]. split; [exact H1|]. cbn.
      rewrite fst_zip, snd_zip by (rewrite length_take, length_drop; lia).
      done. }
  unfold start. intros Hs. inv_bind Hs as y Ey.
  by apply (all_tied_loop fuel g _ rs y T).
Qed.

Lemma unshuffled_deal_never_ends_witness :
  start 1000 war_dealt (alternating 1000 11 22)
  <> Done (Some 0, war_dealt, []).
Proof.
  apply (unshuffled_deal_never_ends standard_dict
           [[("Red", ["Hearts"; "Diamonds"])]; [("Black", ["Spades"; "Clubs"])]]
           2 war_new war_dealt [Tag 11; Tag 22] []);
    [exact War_init_standard | reflexivity | reflexivity | exact war_dealt_eq].
Defined.

(** ** How long a game lasts *)

Lemma war_ends_within (r0 r1 : Z) (b : nat) :
  forall (k0 k1 : nat) (g : Game) (q : list (Card * Card)),
    (51 <= k0 + k1 + b)%nat ->
    (k0 <= 26)%nat -> (k1 <= 26)%nat -> ~ (k0 = 26%nat /\ k1 = 26%nat) ->
    seated r0 r1 g q (2 * k0) (2 * k1) ->
    Forall (fun cd => resolves cd.1 cd.2 = true) q ->
    Exists (fun cd => ties cd.1 cd.2 = false) q ->
    exists (n : nat) (g' : Game),
      (n <= b * length q)%nat
      /\ forall fuel rest,
           start_loop (n + S fuel) g (alternating n r0 r1 ++ rest)
           = Done (g', rest).
Proof.
  induction b as [|b IH]; intros k0 k1 g q Hb L0 L1 Hnot Hs R X.
  - exists 0%nat, g. split; [lia|]. intros fuel rest.
    apply (start_loop_exit r0 r1 g q (2 * k0) (2 * k1)); [done|lia].
  - destruct (decide (k0 = 26%nat \/ k1 = 26%nat)) as [Hend|Hrun].
    { exists 0%nat, g. split; [lia|]. intros fuel rest.
      apply (start_loop_exit r0 r1 g q (2 * k0) (2 * k1)); [done|lia]. }
    destruct (first_nontie q X) as (pre & c & d & post & -> & Tpre & Tcd).
    apply Forall_app in R as [Rpre R]. apply Forall_cons in R as [Rcd Rpost].
    cbn in Rcd.
    destruct (tie_run r0 r1 (2 * k0) (2 * k1) pre ltac:(lia) ltac:(lia) Tpre
                ((c, d) :: post) g Hs) as (g1 & S1 & E1).
    destruct (ties_false c d Rcd Tcd) as (w & W & Hw).
    destruct (start_loop_step r0 r1 g1 c d (post ++ pre) (2 * k0) (2 * k1) w
                S1 ltac:(lia) ltac:(lia) W) as (g2 & S2 & E2).
    assert (R2 : Forall (fun cd => resolves cd.1 cd.2 = true)
                   ((post ++ pre) ++ [(c, d)])).
    { rewrite !Forall_app. repeat split; try done. by constructor. }
    assert (X2 : Exists (fun cd => ties cd.1 cd.2 = false)
                   ((post ++ pre) ++ [(c, d)])).
    { apply Exists_app. right. by constructor. }
    assert (Len : length ((post ++ pre) ++ [(c, d)])
                  = length (pre ++ (c, d) :: post)).
    { rewrite !length_app. cbn. lia. }
    assert (Lpre : (length pre + 1 <= length (pre ++ (c, d) :: post))%nat).
    { rewrite length_app. cbn. lia. }
    assert (Step : forall k0' k1',
              seated r0 r1 g2 ((post ++ pre) ++ [(c, d)]) (2 * k0') (2 * k1') ->
              (k0' + k1' = k0 + k1 + 1)%nat ->
              (k0' <= 26)%nat -> (k1' <= 26)%nat ->
              ~ (k0' = 26%nat /\ k1' = 26%nat) ->
              exists (n : nat) (g' : Game),
                (n <= S b * length (pre ++ (c, d) :: post))%nat
                /\ forall fuel rest,
                     start_loop (n + S fuel) g
                       (alternating n r0 r1 ++ rest)
                     = Done (g', rest)).
    { intros k0' k1' S2' Hsum L0' L1' Hnot'.
      destruct (IH k0' k1' g2 _ ltac:(lia) L0' L1' Hnot' S2' R2 X2)
        as (n & g' & Hn & E').
      exists (length pre + S n)%nat, g'. split; [rewrite Len in Hn; lia|].
      intros fuel rest.
      rewrite alternating_add, <- app_assoc, <- Nat.add_assoc, E1.
      rewrite alternating_S. cbn [app Nat.add]. by rewrite E2, E'. }
    destruct Hw as [-> | ->].
    + apply (Step (k0 + 1)%nat k1); try lia.
      replace (2 * k0 + (if decide (0 = 0)%Z then 2 else 0))%nat
        with (2 * (k0 + 1))%nat in S2 by (destruct (decide _); lia).
      replace (2 * k1 + (if decide (0 = 1)%Z then 2 else 0))%nat
        with (2 * k1)%nat in S2 by (destruct (decide _); lia).
      done.
    + apply (Step k0 (k1 + 1)%nat); try lia.
      replace (2 * k0 + (if decide (1 = 0)%Z then 2 else 0))%nat
        with (2 * k0)%nat in S2 by (destruct (decide _); lia).
      replace (2 * k1 + (if decide (1 = 1)%Z then 2 else 0))%nat
        with (2 * (k1 + 1))%nat in S2 by (destruct (decide _); lia).
      done.
Qed.

(** X19: a game of War that ends at all ends within 1326 rounds: dealt
    from a shuffle of the standard deck that sets some pair of cards of
    different value against each other, to players with different
    identifiers who present them in turn, [start] returns after at most
    51 won rounds, each after at most 25 ties. *)
Theorem start_within_1326_rounds (shuffled : list Card) (r0 r1 : Z) :
  shuffled ≡ₚ cards standard_deck ->
  r0 <> r1 ->
  Exists (fun cd => ties cd.1 cd.2 = false) (aligned shuffled) ->
  exists (g : Game) (n : nat),
    (n <= 1326)%nat
    /\ (forall reads,
          create_hands shuffled war_new (Tag r0 :: Tag r1 :: reads)
          = Done (g, reads))
    /\ forall fuel rest,
         (n < fuel)%nat ->
         exists w g',
           start fuel g (alternating n r0 r1 ++ rest) = Done (w, g', rest).
Proof.
  intros Hp Ne X.
  assert (L : length shuffled = 52%nat) by (by rewrite Hp).
  assert (Hstr : Forall (fun c => is_str (value c) = true) shuffled).
  { rewrite Hp. apply standard_deck_str. }
  destruct (create_hands_run shuffled war_new r0 r1 eq_refl eq_refl)
    as (g & Hg).
  pose proof (seated_deal shuffled war_new g r0 r1 [] eq_refl eq_refl L Ne
                (Hg [])) as Hs.
  assert (R : Forall (fun cd => resolves cd.1 cd.2 = true) (aligned shuffled)).
  { apply resolves_zip; [by apply Forall_take|by apply Forall_drop]. }
  assert (Lq : length (aligned shuffled) = 26%nat).
  { unfold aligned. rewrite L. change (52 / 2)%nat with 26%nat.
    rewrite length_zip, length_take, length_drop. lia. }
  destruct (war_ends_within r0 r1 51 0 0 g (aligned shuffled)
              ltac:(lia) ltac:(lia) ltac:(lia) ltac:(lia) Hs R X)
    as (n & g' & Hn & E).
  exists g, n. split; [lia|]. split; [done|]. intros fuel rest Hf.
  pose proof (E (fuel - S n)%nat rest) as E1.
  replace (n + S (fuel - S n))%nat with fuel in E1 by lia.
  destruct (start_loop_Done fuel g _ g' rest
              ltac:(by destruct Hs) E1) as (P' & K & _).
  unfold start. rewrite E1. cbn -[announce]. rewrite P', range_2.
  unfold keep_playing in K. inv_bind K as h0 K0. inv_raise K0.
  cbn -[Nat.leb]. rewrite K0. cbn -[Nat.leb].
  destruct (Nat.leb_spec 52 (length (dead h0))) as [|Lt]; [by eauto|].
  destruct (Nat.ltb_spec (length (dead h0)) 52) as [_|]; [|lia].
  inv_bind K as h1 K1. inv_raise K1. rewrite K1. cbn -[Nat.leb].
  injection K as K. apply Nat.ltb_ge in K.
  destruct (Nat.leb_spec 52 (length (dead h1))) as [|]; [by eauto|lia].
Qed.

Lemma start_within_1326_rounds_witness :
  exists (g : Game) (n : nat),
    (n <= 1326)%nat
    /\ (forall reads,
          create_hands mixed_deck war_new (Tag 11 :: Tag 22 :: reads)
          = Done (g, reads))
    /\ forall fuel rest,
         (n < fuel)%nat ->
         exists w g',
           start fuel g (alternating n 11 22 ++ rest) = Done (w, g', rest).
Proof.
  apply (start_within_1326_rounds mixed_deck 11 22);
    [exact mixed_deck_perm | lia | exact mixed_deck_nontie].
Defined.

(** ** Round resolution, by values *)

(** X20: [check_winner] looks at the values of the two cards only and
    always takes one of its three branches: on two texts it is the
    lexicographic comparison of the texts, with ['A'] read as ['Z'] and
    ['K'] as ['X']; on two integers the comparison of the numbers; on a
    text against an integer it raises [TypeError].  Suits, colours and
    identities never matter. *)
Theorem check_winner_by_values (c d : Card) :
  check_winner (round_cards c d)
  = match translate_A_K (value c), translate_A_K (value d) with
    | PStr s, PStr t =>
        Done (match String.compare s t with Gt => 0 | Lt => 1 | Eq => -1 end)
    | PInt x, PInt y =>
        Done (match x ?= y with Gt => 0 | Lt => 1 | Eq => -1 end)
    | _, _ => Raise TypeError
    end.
Proof.
  unfold check_winner, round_cards. cbn.
  destruct (translate_A_K (value c)) as [x|s],
           (translate_A_K (value d)) as [y|t];
    cbn -[String.eqb String.ltb]; try done.
  - destruct (Z.compare_spec x y) as [->|L|L].
    + by rewrite Z.ltb_irrefl, Z.eqb_refl.
    + destruct (Z.ltb_spec y x); [lia|]. cbn.
      by destruct (Z.ltb_spec x y); [|lia].
    + by destruct (Z.ltb_spec y x); [|lia].
  - unfold String.ltb. rewrite (String.compare_antisym t s).
    destruct (String.compare s t) eqn:E; cbn -[String.eqb]; try done.
    apply String.compare_eq_iff in E as ->. by rewrite String.eqb_refl.
Qed.

(** X21: played as their texts, two ranks are decided by the rank order
    2 < 3 < ... < 10 < J < Q < K < A whenever the pair is not a ten
    against a numeral from 2 to 9: in particular for every pair without
    a ten, and for a ten against a ten or a court card or an ace. *)
Theorem check_winner_rank_order_but_ten (a b : rank) :
  ten_low a b = false ->
  ten_low b a = false ->
  check_winner (round_of (PStr (rank_name a)) (PStr (rank_name b)))
  = Done (rank_winner a b).
Proof.
  intros Ha Hb. rewrite check_winner_rank_names. by rewrite Ha, Hb.
Qed.

Lemma check_winner_rank_order_but_ten_witness :
  check_winner (round_of (PStr (rank_name RK)) (PStr (rank_name RA)))
  = Done (rank_winner RK RA).
Proof.
  apply (check_winner_rank_order_but_ten RK RA); reflexivity.
Defined.

(** ** The display payload *)

Lemma ascii_of_byte_inj (a b : Ascii.ascii) :
  Z.of_nat (Ascii.nat_of_ascii a) = Z.of_nat (Ascii.nat_of_ascii b) -> a = b.
Proof.
  intros H. apply Nat2Z.inj in H.
  rewrite <- (Ascii.ascii_nat_embedding a), <- (Ascii.ascii_nat_embedding b).
  by rewrite H.
Qed.

(** X22: [_string_to_bytes] makes one byte of each character: the
    payload is as long as the text, every entry lies in [0, 255], the
    payload of a concatenation is the concatenation of the payloads,
    and two different texts never give the same payload. *)
Theorem string_to_bytes_faithful (s t : string) :
  length (string_to_bytes s) = String.length s
  /\ Forall (fun b => 0 <= b < 256) (string_to_bytes s)
  /\ string_to_bytes (s +:+ t) = string_to_bytes s ++ string_to_bytes t
  /\ (string_to_bytes s = string_to_bytes t -> s = t).
Proof.
  unfold string_to_bytes. split; [|split; [|split]].
  - induction s as [|a s IH]; [done|]. cbn. f_equal. exact IH.
  - induction s as [|a s IH]; [constructor|]. cbn. constructor; [|exact IH].
    pose proof (Ascii.nat_ascii_bounded a). lia.
  - induction s as [|a s IH]; [done|].
    change (String a s +:+ t) with (String a (s +:+ t)).
    cbn. f_equal. exact IH.
  - revert t. induction s as [|a s IH]; intros [|b t] H; try done.
    cbn in H. injection H as Hab H.
    apply ascii_of_byte_inj in Hab as ->. f_equal. by apply IH.
Qed.

(** ** Moving a card within a hand *)

Lemma list_remove_length (c : Card) (l l' : list Card) :
  list_remove c l = Some l' -> length l = S (length l').
Proof.
  revert l'. induction l as [|x l IH]; intros l' H; [done|]. cbn in H.
  destruct (card_is x c); [by injection H as <-|].
  destruct (list_remove c l) as [k|]; [|done]. injection H as <-.
  cbn. by rewrite (IH k).
Qed.

(** X23: placing a card and collecting it moves it from [active] to the
    end of [dead]: the hand has one card less to play, one card more in
    its pile, and as many cards as before. *)
Theorem place_then_collect (h h' : Hand) (card c : Card) :
  place h card = (Done c, h') ->
  c = card
  /\ dead (collect h' [c]) = dead h ++ [card]
  /\ length (active h) = S (length (active (collect h' [c])))
  /\ (length (active (collect h' [c])) + length (dead (collect h' [c]))
      = length (active h) + length (dead h))%nat
  /\ rfids (collect h' [c]) = rfids h /\ turn (collect h' [c]) = turn h.
Proof.
  unfold place. destruct (list_remove card (active h)) as [a|] eqn:E; [|done].
  intros [= <- <-]. apply list_remove_length in E. cbn.
  repeat split; try done. rewrite length_app. cbn. lia.
Qed.

Lemma place_then_collect_witness :
  card_5 = card_5
  /\ dead (collect (set_active hand_K5 [card_K]) [card_5])
     = dead hand_K5 ++ [card_5]
  /\ length (active hand_K5)
     = S (length (active (collect (set_active hand_K5 [card_K])
                            [card_5])))
  /\ (length (active (collect (set_active hand_K5 [card_K]) [card_5]))
      + length (dead (collect (set_active hand_K5 [card_K]) [card_5]))
      = length (active hand_K5) + length (dead hand_K5))%nat
  /\ rfids (collect (set_active hand_K5 [card_K]) [card_5])
     = rfids hand_K5
  /\ turn (collect (set_active hand_K5 [card_K]) [card_5])
     = turn hand_K5.
Proof.
  apply (place_then_collect hand_K5 (set_active hand_K5 [card_K])
           card_5 card_5).
  reflexivity.
Defined.

(** ** Values that cannot be compared *)

Lemma play_round_raises (r0 r1 : Z) (g : Game) (c d : Card)
    (q : list (Card * Card)) (n0 n1 : nat) (e : exn) (reads : list read) :
  seated r0 r1 g ((c, d) :: q) n0 n1 ->
  check_winner (round_cards c d) = Raise e ->
  play_round g (Tag r0 :: Tag r1 :: reads) = Raise e.
Proof.
  intros (P & h0 & h1 & H0 & H1 & A0 & A1 & D0 & D1 & T0 & T1 & R0 & Rn & R1) W.
  cbn in A0, A1.
  destruct (get_player_info_first g h0 h1 c (q.*1) r0 P H0 H1 T0 R0 A0)
    as (g1 & E1).
  destruct (get_player_info_inv _ _ _ _ _ P (E1 []))
    as (k0 & k1 & c' & a' & K0 & K1 & P1 & [(Ec & B0 & _ & G0 & G1)|(Ec & _)]);
    [|discriminate].
  rewrite H0 in K0. injection K0 as <-. rewrite H1 in K1. injection K1 as <-.
  destruct (get_player_info_second g1 _ _ d (q.*2) r1 P1 G0 G1)
    as (g2 & E2); [by rewrite has_turn_flip, T1|done|done|done|].
  unfold play_round. rewrite P, range_2. cbn [collect_plays].
  rewrite E1. cbn -[get_player_info check_winner distribute].
  rewrite E2. cbn -[check_winner distribute].
  change [[(0, c)]; [(1, d)]] with (round_cards c d).
  by rewrite W.
Qed.

Lemma check_winner_mixed (c d : Card) :
  is_str (value c) <> is_str (value d) ->
  check_winner (round_cards c d) = Raise TypeError.
Proof.
  intros Hmix. unfold check_winner, round_cards. cbn.
  destruct (value c) as [x|s], (value d) as [y|t]; try done.
  - destruct (translate_A_K_str t) as (t' & ->). done.
  - destruct (translate_A_K_str s) as (s' & ->). done.
Qed.

(** X24: a round that sets an integer value against a text value ends
    the game with a [TypeError]: with the players presenting their
    identifiers in turn and both piles below 52, [start] raises as soon
    as the two front cards are of the two kinds, in either seat.  A
    deck description whose numerals are unquoted and whose court cards
    are texts leads there. *)
Theorem start_raises_on_mixed_values (r0 r1 : Z) (g : Game) (c d : Card)
    (q : list (Card * Card)) (n0 n1 : nat) (fuel : nat) (reads : list read) :
  seated r0 r1 g ((c, d) :: q) n0 n1 ->
  (n0 < 52)%nat -> (n1 < 52)%nat ->
  is_str (value c) <> is_str (value d) ->
  start (S fuel) g (Tag r0 :: Tag r1 :: reads) = Raise TypeError.
Proof.
  intros Hs L0 L1 Hmix.
  pose proof (check_winner_mixed c d Hmix) as W.
  unfold start. cbn -[play_round keep_playing announce].
  rewrite (keep_playing_seated _ _ _ _ _ _ Hs).
  destruct (Nat.ltb_spec n0 52), (Nat.ltb_spec n1 52); try lia.
  cbn -[play_round announce].
  by rewrite (play_round_raises r0 r1 g c d q n0 n1 TypeError reads Hs W).
Qed.

Lemma start_raises_on_mixed_values_witness :
  start 1 game_yaml [Tag 11; Tag 22] = Raise TypeError.
Proof.
  apply (start_raises_on_mixed_values 11 22 game_yaml card_10i card_K [] 0 0);
    [ | lia | lia | discriminate ].
  split; [reflexivity|]. eexists _, _.
  split; [reflexivity|]. split; [reflexivity|].
  repeat split; try reflexivity.
  - apply list_elem_of_In. simpl. auto.
  - intros Hin. apply list_elem_of_In in Hin. simpl in Hin. lia.
  - apply list_elem_of_In. simpl. auto.
Defined.

(** ** Reads that fail *)

(** X25: nothing in the play loop catches the exception of a read that
    fails.  Met while [get_player_info] waits for the player in turn,
    after any number of out-of-turn reads, it ends the call, the round
    and [start] with that exception, whichever it is: the exception
    that [register] swallows at the deal ends the game here. *)
Theorem failed_read_ends_play (g : Game) (pre : list Z) (e : exn)
    (rest : list read) (fuel : nat) :
  Forall (fun hw => is_turn g hw = Done false) pre ->
  get_player_info g ((Tag <$> pre) ++ Fails e :: rest) = Raise e
  /\ (players g <> 0%nat ->
      play_round g ((Tag <$> pre) ++ Fails e :: rest) = Raise e)
  /\ (players g <> 0%nat ->
      keep_playing g = Done true ->
      start (S fuel) g ((Tag <$> pre) ++ Fails e :: rest) = Raise e).
Proof.
  intros Hpre.
  assert (G : get_player_info g ((Tag <$> pre) ++ Fails e :: rest) = Raise e).
  { unfold get_player_info. by rewrite (wait_turn_skips g pre _ Hpre). }
  assert (R : players g <> 0%nat ->
              play_round g ((Tag <$> pre) ++ Fails e :: rest) = Raise e).
  { intros N. unfold play_round, range.
    destruct (players g) as [|n]; [done|].
    cbn [seq fmap list_fmap collect_plays]. by rewrite G. }
  split; [done|]. split; [done|]. intros N K.
  unfold start. cbn -[play_round keep_playing announce]. rewrite K.
  cbn -[play_round announce]. by rewrite (R N).
Qed.

Lemma game_both_out_of_turn :
  Forall (fun hw => is_turn game_both hw = Done false) [22].
Proof. repeat constructor. Qed.

Lemma failed_read_ends_play_witness :
  get_player_info game_both ((Tag <$> [22]) ++ Fails OSError :: [Tag 11])
  = Raise OSError
  /\ play_round game_both ((Tag <$> [22]) ++ Fails OSError :: [Tag 11])
     = Raise OSError
  /\ start 1 game_both ((Tag <$> [22]) ++ Fails OSError :: [Tag 11])
     = Raise OSError.
Proof.
  split; [|split].
  - apply (proj1 (failed_read_ends_play game_both [22] OSError [Tag 11] 0
                    game_both_out_of_turn)).
  - apply (proj1 (proj2 (failed_read_ends_play game_both [22] OSError
                           [Tag 11] 0 game_both_out_of_turn))).
    discriminate.
  - apply (proj2 (proj2 (failed_read_ends_play game_both [22] OSError
                           [Tag 11] 0 game_both_out_of_turn)));
      [discriminate | reflexivity].
Defined.

(** X26: in a game that registers one identifier per player, as War
    does, a read that fails at the deal is not the end of
    [create_hands] but an [IndexError]: [register] swallows the
    exception and returns with no identifier bound, and
    [self.hands[player].rfids[-1]] then raises, for the first player
    as for the second.  A [KeyboardInterrupt] goes through as
    itself. *)
Theorem deal_failed_read (shuffled : list Card) (g : Game) (r0 : Z)
    (e : exn) (rest : list read) :
  players g = 2%nat ->
  req_hw g = 2%nat ->
  create_hands shuffled g (Fails e :: rest)
  = Raise (if is_Exception e then IndexError else e)
  /\ create_hands shuffled g (Tag r0 :: Fails e :: rest)
     = Raise (if is_Exception e then IndexError else e).
Proof.
  intros P Q. unfold create_hands. rewrite P, Q, range_2.
  remember (length shuffled / 2)%nat as k eqn:Ek. clear Ek. cbn.
  change (Z.to_nat 0) with 0%nat. change (Z.to_nat 1) with 1%nat. cbn.
  unfold register. cbn. by destruct (is_Exception e).
Qed.

Lemma deal_failed_read_witness :
  create_hands (cards standard_deck) war_new [Fails OSError; Tag 11; Tag 22]
  = Raise IndexError
  /\ create_hands (cards standard_deck) war_new
       [Tag 11; Fails OSError; Tag 11; Tag 22]
     = Raise IndexError.
Proof.
  apply (deal_failed_read (cards standard_deck) war_new 11 OSError
           [Tag 11; Tag 22]); reflexivity.
Defined.
